(** * Idealizador microservice: the data-access layer of [main.py]

    A shallow embedding of the seven request handlers of [src/main.py]
    ([cadastrar], [login], [obter_perfil], [atualizar_perfil],
    [listar_habilidades], [salvar_habilidades], [excluir_perfil]) over an
    explicit model of the SQLite store they talk to.

    Conventions.
    - A Python [str] is represented by the bytes of its UTF-8 encoding, so
      [s.encode('utf-8')] is the identity and [bytes] is [string] too.
    - A column that may hold SQL NULL is an [option string].
    - A table is the list of its rows in rowid order; a new row is appended.
    - Handlers run in a state-and-exception monad over a [world]: the
      committed database, the open connections with their uncommitted views,
      a schedule of storage faults, and the trace of executed statements. *)

From Stdlib Require Import ZArith String List Lia DecimalString Sorted.
From stdpp Require Import base option list gmap strings fin_maps.

Local Open Scope Z_scope.
Local Open Scope string_scope.

(* ===================================================================== *)
(** ** Data model                                                         *)
(* ===================================================================== *)

Definition bytes := string.

(** Modelled from the spec: the pydantic model [Idealizador] that [main.py]
    imports from [models.py], with the ten fields that [cadastrar] reads;
    the fields the spec marks optional may be [None]. *)
Module Idealizador.
Record t := mk {
  nome : string;
  telefone : option string;
  email : string;
  senha : string;
  github : option string;
  linkedin : option string;
  funcao : option string;
  pais : option string;
  cidade : option string;
  sobre_mim : option string
}.
End Idealizador.

(** [class Login(BaseModel)] *)
Module Login.
Record t := mk { email : string; senha : string }.
End Login.

(** [class AtualizacaoPerfil(BaseModel)]: every field defaults to [None]. *)
Module AtualizacaoPerfil.
Record t := mk {
  nome : option string;
  telefone : option string;
  github : option string;
  linkedin : option string;
  funcao : option string;
  pais : option string;
  cidade : option string;
  sobre_mim : option string;
  email : option string
}.
End AtualizacaoPerfil.

(** The text columns of table [idealizadores] that [atualizar_perfil] can
    name in its [SET] clause. *)
Inductive coluna :=
| c_nome | c_telefone | c_github | c_linkedin | c_funcao
| c_pais | c_cidade | c_sobre_mim | c_email.

#[global] Instance coluna_eq_dec : EqDecision coluna.
Proof. solve_decision. Defined.

(** Modelled from the spec: the table [idealizadores] created by
    [criar_tabelas], which [main.py] imports from [database.py]: integer
    primary key [id], a binary [senha], nine text columns. *)
Module Linha.
Record t := mk {
  id : Z;
  nome : option string;
  telefone : option string;
  email : option string;
  senha : bytes;
  github : option string;
  linkedin : option string;
  funcao : option string;
  pais : option string;
  cidade : option string;
  sobre_mim : option string
}.

Definition get (c : coluna) (r : t) : option string :=
  match c with
  | c_nome => nome r
  | c_telefone => telefone r
  | c_github => github r
  | c_linkedin => linkedin r
  | c_funcao => funcao r
  | c_pais => pais r
  | c_cidade => cidade r
  | c_sobre_mim => sobre_mim r
  | c_email => email r
  end.

Definition set (c : coluna) (v : option string) (r : t) : t :=
  match c with
  | c_nome => mk (id r) v (telefone r) (email r) (senha r) (github r) (linkedin r) (funcao r) (pais r) (cidade r) (sobre_mim r)
  | c_telefone => mk (id r) (nome r) v (email r) (senha r) (github r) (linkedin r) (funcao r) (pais r) (cidade r) (sobre_mim r)
  | c_email => mk (id r) (nome r) (telefone r) v (senha r) (github r) (linkedin r) (funcao r) (pais r) (cidade r) (sobre_mim r)
  | c_github => mk (id r) (nome r) (telefone r) (email r) (senha r) v (linkedin r) (funcao r) (pais r) (cidade r) (sobre_mim r)
  | c_linkedin => mk (id r) (nome r) (telefone r) (email r) (senha r) (github r) v (funcao r) (pais r) (cidade r) (sobre_mim r)
  | c_funcao => mk (id r) (nome r) (telefone r) (email r) (senha r) (github r) (linkedin r) v (pais r) (cidade r) (sobre_mim r)
  | c_pais => mk (id r) (nome r) (telefone r) (email r) (senha r) (github r) (linkedin r) (funcao r) v (cidade r) (sobre_mim r)
  | c_cidade => mk (id r) (nome r) (telefone r) (email r) (senha r) (github r) (linkedin r) (funcao r) (pais r) v (sobre_mim r)
  | c_sobre_mim => mk (id r) (nome r) (telefone r) (email r) (senha r) (github r) (linkedin r) (funcao r) (pais r) (cidade r) v
  end.
End Linha.

(** Modelled from the spec: the table [habilidades] created by
    [criar_tabelas]: integer primary key, owner id (no foreign key is
    enforced), skill label. *)
Module Habilidade.
Record t := mk { id : Z; idealizador_id : Z; nome : string }.
End Habilidade.

(** The content of [banco.db]. *)
Record banco := mk_banco {
  idealizadores : list Linha.t;
  habilidades : list Habilidade.t
}.

(* ===================================================================== *)
(** ** Exceptions                                                         *)
(* ===================================================================== *)

Inductive excecao :=
| HTTPException (status_code : Z) (detail : string)
| IntegrityError (msg : string)
| OperationalError (msg : string)
| ProgrammingError (msg : string)
| OverflowError (msg : string)
| ValueError (msg : string).

Definition str_int (z : Z) : string := NilZero.string_of_int (Z.to_int z).

(** [str(e)], as the f-string of [excluir_perfil] formats the exception. *)
Definition str_excecao (e : excecao) : string :=
  match e with
  | HTTPException c d => str_int c +:+ ": " +:+ d
  | IntegrityError m | OperationalError m | ProgrammingError m
  | OverflowError m | ValueError m => m
  end.

(* ===================================================================== *)
(** ** The SQL statements of [main.py] and what each does to a database   *)
(* ===================================================================== *)

(** One constructor per statement text of the source, with its bound
    parameters; [COMMIT] stands for [conexao.commit()]. *)
Inductive instrucao :=
| INSERT_idealizador (i : Idealizador.t) (senha_criptografada : bytes)
| SELECT_login (email : string)
| SELECT_perfil (idealizador_id : Z)
| SELECT_habilidades (idealizador_id : Z)
| UPDATE_idealizadores (campos : list coluna) (valores : list string) (idealizador_id : Z)
| DELETE_habilidades (idealizador_id : Z)
| INSERT_habilidade (idealizador_id : Z) (nome : string)
| SELECT_id (idealizador_id : Z)
| DELETE_idealizador (idealizador_id : Z)
| COMMIT
| ROLLBACK.

(** The integers among the bound parameters of a statement. *)
Definition inteiros (s : instrucao) : list Z :=
  match s with
  | SELECT_perfil i | SELECT_habilidades i | DELETE_habilidades i
  | SELECT_id i | DELETE_idealizador i => [i]
  | UPDATE_idealizadores _ _ i => [i]
  | INSERT_habilidade i _ => [i]
  | INSERT_idealizador _ _ | SELECT_login _ | COMMIT | ROLLBACK => []
  end.

(** SQLite integers are signed 64-bit: [sqlite3] refuses to bind a Python
    [int] outside that range. *)
Definition int64_min : Z := -9223372036854775808.
Definition int64_max : Z := 9223372036854775807.

Definition cabe_em_int64 (z : Z) : bool :=
  Z.leb int64_min z && Z.leb z int64_max.

Definition vincula (s : instrucao) : bool := forallb cabe_em_int64 (inteiros s).

Definition msg_overflow : string := "Python int too large to convert to SQLite INTEGER".

(** Modelled from the spec: ids are auto-assigned; as SQLite does for an
    integer primary key, the new rowid is one more than the largest one. *)
Definition novo_id (ids : list Z) : Z := foldr Z.max 0 ids + 1.

(** Modelled from the spec: [email] is UNIQUE in [idealizadores]. *)
Definition email_em_uso (e : string) (l : list Linha.t) : bool :=
  existsb (fun r => bool_decide (Linha.email r = Some e)) l.

Definition msg_unique : string := "UNIQUE constraint failed: idealizadores.email".

Definition sql_insert_idealizador (i : Idealizador.t) (hash : bytes) (b : banco)
  : excecao + banco :=
  if email_em_uso (Idealizador.email i) (idealizadores b)
  then inl (IntegrityError msg_unique)
  else inr (mk_banco
         (idealizadores b ++
          [Linha.mk (novo_id (map Linha.id (idealizadores b)))
             (Some (Idealizador.nome i)) (Idealizador.telefone i)
             (Some (Idealizador.email i)) hash
             (Idealizador.github i) (Idealizador.linkedin i)
             (Idealizador.funcao i) (Idealizador.pais i)
             (Idealizador.cidade i) (Idealizador.sobre_mim i)])
         (habilidades b)).

(** [SELECT id, senha, nome FROM idealizadores WHERE email = ?], [fetchone]. *)
Definition sql_select_login (e : string) (b : banco) : option (Z * bytes * option string) :=
  match filter (fun r => Linha.email r = Some e) (idealizadores b) with
  | r :: _ => Some (Linha.id r, Linha.senha r, Linha.nome r)
  | [] => None
  end.

(** [SELECT id, nome, ..., sobre_mim FROM idealizadores WHERE id = ?],
    [fetchone]: the row without its [senha] column. *)
Record resultado_perfil := mk_resultado {
  res0 : Z;
  res1 : option string; res2 : option string; res3 : option string;
  res4 : option string; res5 : option string; res6 : option string;
  res7 : option string; res8 : option string; res9 : option string
}.

Definition projeta (r : Linha.t) : resultado_perfil :=
  mk_resultado (Linha.id r) (Linha.nome r) (Linha.telefone r) (Linha.email r)
    (Linha.github r) (Linha.linkedin r) (Linha.funcao r) (Linha.pais r)
    (Linha.cidade r) (Linha.sobre_mim r).

Definition sql_select_perfil (i : Z) (b : banco) : option resultado_perfil :=
  match filter (fun r => Linha.id r = i) (idealizadores b) with
  | r :: _ => Some (projeta r)
  | [] => None
  end.

(** [SELECT nome FROM habilidades WHERE idealizador_id = ?], [fetchall]. *)
Definition sql_select_habilidades (i : Z) (b : banco) : list string :=
  map Habilidade.nome (filter (fun h => Habilidade.idealizador_id h = i) (habilidades b)).

(** [SELECT id FROM idealizadores WHERE id = ?], [fetchone]. *)
Definition sql_select_id (i : Z) (b : banco) : option Z :=
  match filter (fun r => Linha.id r = i) (idealizadores b) with
  | r :: _ => Some (Linha.id r)
  | [] => None
  end.

(** The [SET c1 = ?, c2 = ?, ...] clause applied to one row. *)
Fixpoint aplica (sets : list (coluna * string)) (r : Linha.t) : Linha.t :=
  match sets with
  | [] => r
  | (c, v) :: sets' => aplica sets' (Linha.set c (Some v) r)
  end.

(** The UNIQUE check of an [UPDATE] that assigns [email]: the new email of
    an updated row must not be the email of any other row. *)
Definition viola_unique (i : Z) (novo : list Linha.t) : bool :=
  existsb (fun r =>
    bool_decide (Linha.id r = i) &&
    match Linha.email r with
    | Some e => existsb (fun r' => bool_decide (Linha.id r' ≠ i) &&
                                   bool_decide (Linha.email r' = Some e)) novo
    | None => false
    end) novo.

Definition msg_bindings : string := "Incorrect number of bindings supplied.".

(** [UPDATE idealizadores SET ... WHERE id = ?]. *)
Definition sql_update_idealizadores (campos : list coluna) (valores : list string)
    (i : Z) (b : banco) : excecao + banco :=
  if bool_decide (length campos = length valores) then
    let novo := map (fun r => if bool_decide (Linha.id r = i)
                              then aplica (zip campos valores) r else r)
                    (idealizadores b) in
    if bool_decide (c_email ∈ campos) && viola_unique i novo
    then inl (IntegrityError msg_unique)
    else inr (mk_banco novo (habilidades b))
  else inl (ProgrammingError msg_bindings).

(** [DELETE FROM habilidades WHERE idealizador_id = ?]. *)
Definition sql_delete_habilidades (i : Z) (b : banco) : banco :=
  mk_banco (idealizadores b)
           (filter (fun h => Habilidade.idealizador_id h ≠ i) (habilidades b)).

(** [INSERT INTO habilidades (idealizador_id, nome) VALUES (?, ?)]. *)
Definition sql_insert_habilidade (i : Z) (n : string) (b : banco) : banco :=
  mk_banco (idealizadores b)
           (habilidades b ++
            [Habilidade.mk (novo_id (map Habilidade.id (habilidades b))) i n]).

(** [DELETE FROM idealizadores WHERE id = ?]. *)
Definition sql_delete_idealizador (i : Z) (b : banco) : banco :=
  mk_banco (filter (fun r => Linha.id r ≠ i) (idealizadores b)) (habilidades b).

(** What [cursor.execute(s)] followed by the fetch of the source yields. *)
Definition resposta (s : instrucao) : Type :=
  match s with
  | SELECT_login _ => option (Z * bytes * option string)
  | SELECT_perfil _ => option resultado_perfil
  | SELECT_habilidades _ => list string
  | SELECT_id _ => option Z
  | _ => unit
  end.

(** The effect of a statement on the view of the connection running it. *)
Definition executa (s : instrucao) (b : banco) : excecao + (resposta s * banco) :=
  match s return excecao + (resposta s * banco) with
  | INSERT_idealizador i h =>
      match sql_insert_idealizador i h b with
      | inl e => inl e
      | inr b' => inr (tt, b')
      end
  | SELECT_login e => inr (sql_select_login e b, b)
  | SELECT_perfil i => inr (sql_select_perfil i b, b)
  | SELECT_habilidades i => inr (sql_select_habilidades i b, b)
  | UPDATE_idealizadores cs vs i =>
      match sql_update_idealizadores cs vs i b with
      | inl e => inl e
      | inr b' => inr (tt, b')
      end
  | DELETE_habilidades i => inr (tt, sql_delete_habilidades i b)
  | INSERT_habilidade i n => inr (tt, sql_insert_habilidade i n b)
  | SELECT_id i => inr (sql_select_id i b, b)
  | DELETE_idealizador i => inr (tt, sql_delete_idealizador i b)
  | COMMIT => inr (tt, b)
  | ROLLBACK => inr (tt, b)
  end.

(* ===================================================================== *)
(** ** The world and the handler monad                                    *)
(* ===================================================================== *)

(** Modelled from the spec: the Credential Service of its section 4.2,
    which [main.py] takes from the [bcrypt] package (an external library,
    no code of the repository), in the shape that the documentation of that
    package gives it. A salt is 29 bytes (prefix, cost, 22 characters); a
    hash is that salt followed by the digest of the password under it, so
    that verification needs no separate salt; a password of more than 72
    bytes is refused with [ValueError]. The digest function itself (the
    expensive key schedule) is left open, as is the source of random salts:
    [gensalt n] is the salt returned by the [n]-th call of
    [bcrypt.gensalt()]. *)
Class Bcrypt := {
  gensalt : nat -> bytes;
  gensalt_length : forall n, String.length (gensalt n) = 29%nat;
  digest : bytes -> bytes -> bytes
}.

Definition msg_72 : string :=
  "password cannot be longer than 72 bytes, truncate manually if necessary (e.g. my_password[:72])".
Definition msg_salt : string := "Invalid salt".

(** The passwords that [bcrypt] accepts. *)
Definition senha_valida (password : bytes) : bool :=
  (String.length password <=? 72)%nat.

(** The salt that a salt or a hash starts with. *)
Definition salt_de (hashed : bytes) : bytes := substring 0 29 hashed.

(** [bcrypt.hashpw(password, salt)]; [salt] may be a whole hash, of which
    only the embedded salt is used. *)
Definition hashpw `{Bcrypt} (password salt : bytes) : excecao + bytes :=
  if senha_valida password then
    if (String.length salt <? 29)%nat then inl (ValueError msg_salt)
    else inr (salt_de salt +:+ digest (salt_de salt) password)
  else inl (ValueError msg_72).

(** [bcrypt.checkpw(password, hashed_password)]: hashes the password again
    under the salt of the hash and compares. *)
Definition checkpw `{Bcrypt} (password hashed_password : bytes) : excecao + bool :=
  match hashpw password hashed_password with
  | inl e => inl e
  | inr h => inr (bool_decide (h = hashed_password))
  end.

(** - [disk]: the committed content of [banco.db];
    - [conns]: the open connections, each with its own view of the
      database (the committed content plus its uncommitted changes);
    - [faults]: the storage faults to come: the n-th statement or commit
      from now raises [OperationalError m] when the n-th entry is [Some m],
      and runs normally when it is [None] or the schedule is exhausted;
    - [trace]: every statement that reached the store through
      [cursor.execute] and every [commit]/[rollback], oldest first;
    - [draws]: how many salts [gensalt] has produced. *)
Record world := mk_world {
  disk : banco;
  conns : gmap nat banco;
  faults : list (option string);
  trace : list instrucao;
  draws : nat
}.

Definition set_disk (b : banco) (w : world) : world :=
  mk_world b (conns w) (faults w) (trace w) (draws w).
Definition set_conns (c : gmap nat banco) (w : world) : world :=
  mk_world (disk w) c (faults w) (trace w) (draws w).
Definition set_draws (n : nat) (w : world) : world :=
  mk_world (disk w) (conns w) (faults w) (trace w) n.
(** One statement is attempted: it enters the trace and consumes one entry
    of the fault schedule. *)
Definition attempt (s : instrucao) (w : world) : world :=
  mk_world (disk w) (conns w) (tail (faults w)) (trace w ++ [s]) (draws w).

Inductive outcome (A : Type) :=
| Return (a : A)
| Raise (e : excecao).
Arguments Return {A} a.
Arguments Raise {A} e.

Definition M (A : Type) : Type := world -> outcome A * world.

Definition ret {A} (a : A) : M A := fun w => (Return a, w).
Definition raise {A} (e : excecao) : M A := fun w => (Raise e, w).
Definition bind {A B} (m : M A) (k : A -> M B) : M B :=
  fun w => match m w with
           | (Return a, w') => k a w'
           | (Raise e, w') => (Raise e, w')
           end.

Declare Scope py_scope.
Delimit Scope py_scope with py.
Notation "'let*' x ':=' m 'in' k" := (bind m (fun x => k))
  (at level 10, x name, m at level 100, k at level 200) : py_scope.
Notation "m ';;' k" := (bind m (fun _ => k))
  (at level 100, k at level 200, right associativity) : py_scope.
Local Open Scope py_scope.

(** A library call that returns or raises. *)
Definition chama {A} (r : excecao + A) : M A :=
  fun w => match r with
           | inl e => (Raise e, w)
           | inr a => (Return a, w)
           end.

(** [try: body / except <classes selected by handler>: ...]: an exception
    the handler does not select propagates. *)
Definition try_except {A} (body : M A) (handler : excecao -> option (M A)) : M A :=
  fun w => match body w with
           | (Return a, w') => (Return a, w')
           | (Raise e, w') =>
               match handler e with
               | Some h => h w'
               | None => (Raise e, w')
               end
           end.

(** [try: body / finally: fin]: [fin] runs on every exit of [body]. *)
Definition try_finally {A} (body : M A) (fin : M unit) : M A :=
  fun w => let '(o, w') := body w in
           match fin w' with
           | (Return _, w'') => (o, w'')
           | (Raise e, w'') => (Raise e, w'')
           end.

(** [for x in l: f x] *)
Fixpoint for_each {A} (l : list A) (f : A -> M unit) : M unit :=
  match l with
  | [] => ret tt
  | x :: l' => f x ;; for_each l' f
  end.

(** [sqlite3.connect("banco.db")]: a new handle, whose view starts at the
    committed content. *)
Definition novo_handle (w : world) : nat := fresh (dom (conns w)).

Definition connect : M nat :=
  fun w => let h := novo_handle w in
           (Return h, set_conns (<[h := disk w]> (conns w)) w).

(** [conexao.close()]: the handle is released, its uncommitted changes are
    lost. *)
Definition close (h : nat) : M unit :=
  fun w => (Return tt, set_conns (delete h (conns w)) w).

Definition msg_closed : string := "Cannot operate on a closed database.".

(** [cursor.execute(s)] (with the fetch that follows it in the source).
    The parameters are bound first: an integer that does not fit 64 bits
    raises [OverflowError] and the statement does not reach the store.
    A statement that raises leaves the view as it was. *)
Definition execute (h : nat) (s : instrucao) : M (resposta s) :=
  fun w =>
    match conns w !! h with
    | None => (Raise (ProgrammingError msg_closed), w)
    | Some v =>
        if vincula s then
          let w1 := attempt s w in
          match head (faults w) with
          | Some (Some m) => (Raise (OperationalError m), w1)
          | _ =>
              match executa s v with
              | inl e => (Raise e, w1)
              | inr (a, v') => (Return a, set_conns (<[h := v']> (conns w)) w1)
              end
          end
        else (Raise (OverflowError msg_overflow), w)
    end.

(** [conexao.commit()]: the view of the connection becomes the committed
    content. *)
Definition commit (h : nat) : M unit :=
  fun w =>
    let w1 := attempt COMMIT w in
    match head (faults w) with
    | Some (Some m) => (Raise (OperationalError m), w1)
    | _ =>
        match conns w !! h with
        | None => (Raise (ProgrammingError msg_closed), w1)
        | Some v => (Return tt, set_disk v w1)
        end
    end.

(** [conexao.rollback()]: the view goes back to the committed content. A
    rollback only discards pending changes; it takes no entry of the fault
    schedule. *)
Definition rollback (h : nat) : M unit :=
  fun w =>
    let w1 := mk_world (disk w) (conns w) (faults w) (trace w ++ [ROLLBACK]) (draws w) in
    match conns w !! h with
    | None => (Raise (ProgrammingError msg_closed), w1)
    | Some _ => (Return tt, set_conns (<[h := disk w]> (conns w)) w1)
    end.

(** [bcrypt.gensalt()] *)
Definition draw_salt `{Bcrypt} : M bytes :=
  fun w => (Return (gensalt (draws w)), set_draws (S (draws w)) w).

(* ===================================================================== *)
(** ** The handlers of [main.py]                                          *)
(* ===================================================================== *)

(** The values that the handlers put in their response dictionaries. *)
Inductive valor :=
| VNone
| VInt (z : Z)
| VStr (s : string)
| VLista (l : list string).

(** A response body: a Python [dict] with string keys, in insertion order. *)
Definition dict := list (string * valor).

(** [x or ""] on a value read from a text column. *)
Definition or_vazio (x : option string) : string :=
  match x with
  | Some s => if bool_decide (s = "") then "" else s
  | None => ""
  end.

(** [f"{x}"] on a value read from a text column. *)
Definition formata (x : option string) : string :=
  match x with
  | Some s => s
  | None => "None"
  end.

Section Handlers.
Context `{Bcrypt}.

(** [@app.post("/cadastro")] *)
Definition cadastrar (idealizador : Idealizador.t) : M dict :=
  let* conexao := connect in
  let* salt := draw_salt in
  let* senha_criptografada := chama (hashpw (Idealizador.senha idealizador) salt) in
  try_finally
    (try_except
       (execute conexao (INSERT_idealizador idealizador senha_criptografada) ;;
        commit conexao)
       (fun e => match e with
                 | IntegrityError _ =>
                     Some (raise (HTTPException 400 "E-mail já cadastrado."))
                 | _ => None
                 end))
    (close conexao) ;;
  ret [("mensagem", VStr "Idealizador cadastrado com sucesso!")].

(** [@app.post("/login")] *)
Definition login (credenciais : Login.t) : M dict :=
  let* conexao := connect in
  let* resultado := execute conexao (SELECT_login (Login.email credenciais)) in
  close conexao ;;
  match resultado with
  | None => raise (HTTPException 404 "Usuário não encontrado")
  | Some (id_usuario, senha_armazenada, nome) =>
      let* confere := chama (checkpw (Login.senha credenciais) senha_armazenada) in
      if confere
      then ret [("mensagem", VStr ("Bem-vindo " +:+ formata nome +:+ "!"));
                ("id", VInt id_usuario)]
      else raise (HTTPException 401 "Senha incorreta")
  end.

(** [@app.get("/perfil/{idealizador_id}")] *)
Definition obter_perfil (idealizador_id : Z) : M dict :=
  let* conexao := connect in
  let* resultado := execute conexao (SELECT_perfil idealizador_id) in
  match resultado with
  | None =>
      close conexao ;;
      raise (HTTPException 404 "Perfil não encontrado")
  | Some resultado =>
      let perfil :=
        [("id", VInt (res0 resultado));
         ("nome", VStr (or_vazio (res1 resultado)));
         ("telefone", VStr (or_vazio (res2 resultado)));
         ("email", VStr (or_vazio (res3 resultado)));
         ("github", VStr (or_vazio (res4 resultado)));
         ("linkedin", VStr (or_vazio (res5 resultado)));
         ("funcao", VStr (or_vazio (res6 resultado)));
         ("pais", VStr (or_vazio (res7 resultado)));
         ("cidade", VStr (or_vazio (res8 resultado)));
         ("sobre_mim", VStr (or_vazio (res9 resultado)))] in
      let* habilidades := execute conexao (SELECT_habilidades idealizador_id) in
      close conexao ;;
      ret (perfil ++ [("habilidades", VLista habilidades)])%list
  end.

(** [dados.dict().items()]: the fields in declaration order. *)
Definition dict_items (dados : AtualizacaoPerfil.t) : list (coluna * option string) :=
  [(c_nome, AtualizacaoPerfil.nome dados);
   (c_telefone, AtualizacaoPerfil.telefone dados);
   (c_github, AtualizacaoPerfil.github dados);
   (c_linkedin, AtualizacaoPerfil.linkedin dados);
   (c_funcao, AtualizacaoPerfil.funcao dados);
   (c_pais, AtualizacaoPerfil.pais dados);
   (c_cidade, AtualizacaoPerfil.cidade dados);
   (c_sobre_mim, AtualizacaoPerfil.sobre_mim dados);
   (c_email, AtualizacaoPerfil.email dados)].

(** The loop of [atualizar_perfil] that fills [campos] and [valores]. *)
Fixpoint coleta (items : list (coluna * option string))
    (campos : list coluna) (valores : list string) : list coluna * list string :=
  match items with
  | [] => (campos, valores)
  | (campo, valor) :: items' =>
      match valor with
      | Some v => coleta items' (campos ++ [campo]) (valores ++ [v])
      | None => coleta items' campos valores
      end
  end.

(** [@app.put("/perfil/{idealizador_id}")] *)
Definition atualizar_perfil (idealizador_id : Z) (dados : AtualizacaoPerfil.t) : M dict :=
  let* conexao := connect in
  let '(campos, valores) := coleta (dict_items dados) [] [] in
  match campos with
  | [] => raise (HTTPException 400 "Nenhum dado enviado para atualizar.")
  | _ :: _ =>
      execute conexao (UPDATE_idealizadores campos valores idealizador_id) ;;
      commit conexao ;;
      close conexao ;;
      ret [("mensagem", VStr "Perfil atualizado com sucesso!")]
  end.

(** [@app.get("/habilidades/{idealizador_id}")] *)
Definition listar_habilidades (idealizador_id : Z) : M dict :=
  let* conexao := connect in
  let* habilidades := execute conexao (SELECT_habilidades idealizador_id) in
  close conexao ;;
  ret [("habilidades", VLista habilidades)].

(** [@app.post("/habilidades/{idealizador_id}")] *)
Definition salvar_habilidades (idealizador_id : Z) (habilidades : list string) : M dict :=
  let* conexao := connect in
  execute conexao (DELETE_habilidades idealizador_id) ;;
  for_each habilidades
    (fun nome => execute conexao (INSERT_habilidade idealizador_id nome)) ;;
  commit conexao ;;
  close conexao ;;
  ret [("mensagem", VStr "Habilidades atualizadas com sucesso!")].

(** [@app.delete("/perfil/{idealizador_id}")] *)
Definition excluir_perfil (idealizador_id : Z) : M dict :=
  let* conexao := connect in
  let* existe := execute conexao (SELECT_id idealizador_id) in
  match existe with
  | None =>
      close conexao ;;
      raise (HTTPException 404 "Usuário não encontrado.")
  | Some _ =>
      try_finally
        (try_except
           (execute conexao (DELETE_habilidades idealizador_id) ;;
            execute conexao (DELETE_idealizador idealizador_id) ;;
            commit conexao)
           (fun e => Some (rollback conexao ;;
                           raise (HTTPException 500
                                    ("Erro ao excluir perfil: " +:+ str_excecao e)))))
        (close conexao) ;;
      ret [("mensagem", VStr "Perfil e habilidades excluídos com sucesso!")]
  end.

End Handlers.

(* ===================================================================== *)
(** ** Reasoning about one request                                        *)
(* ===================================================================== *)

(** The world in the middle of a request that started in [w]: its handle
    [h] is open with view [v], the fault schedule is down to [f], and the
    statements [t] have been added to the trace. *)
Definition sess (w : world) (h : nat) (v : banco) (f : list (option string))
    (t : list instrucao) : world :=
  mk_world (disk w) (<[h := v]> (conns w)) f (trace w ++ t) (draws w).

(** The world once the request has released its handle. *)
Definition fim (w : world) (f : list (option string)) (t : list instrucao) : world :=
  mk_world (disk w) (conns w) f (trace w ++ t) (draws w).

(** The fault, if any, that the next statement meets. *)
Definition proxima (f : list (option string)) : option string :=
  match f with
  | Some m :: _ => Some m
  | _ => None
  end.

(** The response body that [obter_perfil] builds from the selected row and
    the selected skill names. *)
Definition corpo_perfil (r : resultado_perfil) (habs : list string) : dict :=
  [("id", VInt (res0 r));
   ("nome", VStr (or_vazio (res1 r)));
   ("telefone", VStr (or_vazio (res2 r)));
   ("email", VStr (or_vazio (res3 r)));
   ("github", VStr (or_vazio (res4 r)));
   ("linkedin", VStr (or_vazio (res5 r)));
   ("funcao", VStr (or_vazio (res6 r)));
   ("pais", VStr (or_vazio (res7 r)));
   ("cidade", VStr (or_vazio (res8 r)));
   ("sobre_mim", VStr (or_vazio (res9 r)));
   ("habilidades", VLista habs)].

(** What [obter_perfil] answers, as a function of the committed content
    and of the fault schedule only. *)
Definition le_perfil (i : Z) (f : list (option string)) (b : banco) : outcome dict :=
  if cabe_em_int64 i then
    match proxima f with
    | Some m => Raise (OperationalError m)
    | None =>
        match sql_select_perfil i b with
        | None => Raise (HTTPException 404 "Perfil não encontrado")
        | Some r =>
            match proxima (tail f) with
            | Some m => Raise (OperationalError m)
            | None => Return (corpo_perfil r (sql_select_habilidades i b))
            end
        end
    end
  else Raise (OverflowError msg_overflow).

(** What [listar_habilidades] answers, likewise. *)
Definition le_habilidades (i : Z) (f : list (option string)) (b : banco) : outcome dict :=
  if cabe_em_int64 i then
    match proxima f with
    | Some m => Raise (OperationalError m)
    | None => Return [("habilidades", VLista (sql_select_habilidades i b))]
    end
  else Raise (OverflowError msg_overflow).

(** A store with two users, the first owning the skills a and b. *)
Definition linha_ana : Linha.t :=
  Linha.mk 1 (Some "Ana") None (Some "a@x.com")
    "$2b$12$abcdefghijklmnopqrstuvdigest.of.pw1"
    None None None None (Some "Recife") None.
Definition linha_bia : Linha.t :=
  Linha.mk 2 (Some "Bia") (Some "555") (Some "b@x.com")
    "$2b$12$abcdefghijklmnopqrstuvdigest.of.pw2"
    None None None None None None.

Definition mundo_ab : world :=
  mk_world
    (mk_banco [linha_ana; linha_bia] [Habilidade.mk 1 1 "a"; Habilidade.mk 2 1 "b"])
    ∅ [] [] 2.

(** A [bcrypt] stand-in to run [cadastrar] and [login] on: one salt, and
    a digest that is a tag followed by the password. *)
Definition bcrypt_teste : Bcrypt :=
  {| gensalt := fun _ => "$2b$12$abcdefghijklmnopqrstuv";
     gensalt_length := fun _ => eq_refl;
     digest := fun s p => "digest.of." +:+ p |}.

(** A password of 73 bytes. *)
Definition senha_longa : string :=
  "0123456789012345678901234567890123456789012345678901234567890123456789012".

(** The first integer that does not fit 64 bits. *)
Definition id_grande : Z := 9223372036854775808.

Definition mundo_vazio : world := mk_world (mk_banco [] []) ∅ [] [] 0.

Definition idealizador_ana (senha : string) : Idealizador.t :=
  Idealizador.mk "Ana" None "a@x.com" senha None None None None (Some "Recife") None.

(** [AtualizacaoPerfil()]: no field present. *)
Definition sem_campos : AtualizacaoPerfil.t :=
  AtualizacaoPerfil.mk None None None None None None None None None.

(** The field of the input that is named like column [c]. *)
Definition campo (c : coluna) (d : AtualizacaoPerfil.t) : option string :=
  match c with
  | c_nome => AtualizacaoPerfil.nome d
  | c_telefone => AtualizacaoPerfil.telefone d
  | c_github => AtualizacaoPerfil.github d
  | c_linkedin => AtualizacaoPerfil.linkedin d
  | c_funcao => AtualizacaoPerfil.funcao d
  | c_pais => AtualizacaoPerfil.pais d
  | c_cidade => AtualizacaoPerfil.cidade d
  | c_sobre_mim => AtualizacaoPerfil.sobre_mim d
  | c_email => AtualizacaoPerfil.email d
  end.

Definition todas_colunas : list coluna :=
  [c_nome; c_telefone; c_github; c_linkedin; c_funcao; c_pais; c_cidade;
   c_sobre_mim; c_email].

(** The items whose value is not [None], with their values. *)
Definition presentes_de (items : list (coluna * option string)) : list (coluna * string) :=
  omap (fun cv => pair cv.1 <$> cv.2) items.

Definition presentes (d : AtualizacaoPerfil.t) : list (coluna * string) :=
  presentes_de (dict_items d).

(** What the spec asks of an updated row: the present fields take the
    values of the input, every other column keeps its value. *)
Definition so_presentes (d : AtualizacaoPerfil.t) (r r' : Linha.t) : Prop :=
  Linha.id r' = Linha.id r /\ Linha.senha r' = Linha.senha r /\
  forall c, Linha.get c r' =
            match campo c d with
            | Some v => Some v
            | None => Linha.get c r
            end.

(** The store after a partial update of the rows with id [i]: those rows
    change as [so_presentes] says, all other rows and all skills stay. *)
Definition atualizacao_parcial (i : Z) (d : AtualizacaoPerfil.t) (b b' : banco) : Prop :=
  habilidades b' = habilidades b /\
  Forall2 (fun r r' => if decide (Linha.id r = i) then so_presentes d r r' else r' = r)
          (idealizadores b) (idealizadores b').

(** The rows after [UPDATE idealizadores SET <present fields> WHERE id = i]. *)
Definition linhas_atualizadas (i : Z) (d : AtualizacaoPerfil.t) (l : list Linha.t)
  : list Linha.t :=
  map (fun r => if bool_decide (Linha.id r = i) then aplica (presentes d) r else r) l.


(** C2 as the spec states it, of a given [bcrypt]: registering an email
    that a row has is answered with the conflict error. *)
Definition cadastrar_duplicado_afirmado (B : Bcrypt) : Prop :=
  forall (i : Idealizador.t) (w : world),
    faults w = [] ->
    (exists r, r ∈ idealizadores (disk w) /\ Linha.email r = Some (Idealizador.email i)) ->
    fst (cadastrar i w) = Raise (HTTPException 400 "E-mail já cadastrado.").

(** C3 as the spec states it: deleting any id that no row has is answered
    with 404. *)
Definition excluir_perfil_afirmado : Prop :=
  forall (i : Z) (w : world),
    faults w = [] ->
    (forall r, r ∈ idealizadores (disk w) -> Linha.id r ≠ i) ->
    fst (excluir_perfil i w) = Raise (HTTPException 404 "Usuário não encontrado.").

(** C4 as the spec states it: after a skill replace for any id, listing
    the skills of that id answers the input list. *)
Definition salvar_habilidades_afirmado : Prop :=
  forall (i : Z) (nomes : list string) (w : world),
    faults w = [] ->
    fst (listar_habilidades i (snd (salvar_habilidades i nomes w))) =
    Return [("habilidades", VLista nomes)].

(** C5 as the spec states it, of a given [bcrypt]: a login with the email
    of a row and any password either succeeds or is answered with 401. *)
Definition login_afirmado (B : Bcrypt) : Prop :=
  forall (c : Login.t) (w : world),
    faults w = [] ->
    (exists r, r ∈ idealizadores (disk w) /\ Linha.email r = Some (Login.email c)) ->
    (exists d, fst (login c w) = Return d) \/
    fst (login c w) = Raise (HTTPException 401 "Senha incorreta").

(** C7 as the spec states it: reading the profile of any id that no row
    has is answered with 404. *)
Definition obter_perfil_afirmado : Prop :=
  forall (i : Z) (w : world),
    faults w = [] ->
    (forall r, r ∈ idealizadores (disk w) -> Linha.id r ≠ i) ->
    fst (obter_perfil i w) = Raise (HTTPException 404 "Perfil não encontrado").

(** C10 as the spec states it: a skill replace for any id that no user
    row has succeeds. *)
Definition salvar_sem_usuario_afirmado : Prop :=
  forall (i : Z) (nomes : list string) (w : world),
    faults w = [] ->
    (forall r, r ∈ idealizadores (disk w) -> Linha.id r ≠ i) ->
    fst (salvar_habilidades i nomes w) =
    Return [("mensagem", VStr "Habilidades atualizadas com sucesso!")].

(** C6 as the spec states it: whenever at least one field is present, the
    rows with the given id end with exactly the present fields changed. *)
Definition atualizar_perfil_afirmado : Prop :=
  forall (i : Z) (d : AtualizacaoPerfil.t) (w : world),
    faults w = [] ->
    (exists c v, campo c d = Some v) ->
    atualizacao_parcial i d (disk w) (disk (snd (atualizar_perfil i d w))).

Definition so_email (e : string) : AtualizacaoPerfil.t :=
  AtualizacaoPerfil.mk None None None None None None None None (Some e).

Definition so_cidade (x : string) : AtualizacaoPerfil.t :=
  AtualizacaoPerfil.mk None None None None None None (Some x) None None.

(** The [for] loop of [salvar_habilidades] on a view [v], under the fault
    schedule [f]: its outcome, the view, the schedule and the statements it
    leaves behind. *)
Fixpoint insere_sob_faltas (i : Z) (nomes : list string) (v : banco)
    (f : list (option string)) (t : list instrucao)
  : outcome unit * banco * list (option string) * list instrucao :=
  match nomes with
  | [] => (Return tt, v, f, t)
  | nome :: nomes' =>
      match proxima f with
      | Some m => (Raise (OperationalError m), v, tail f, (t ++ [INSERT_habilidade i nome])%list)
      | None => insere_sob_faltas i nomes' (sql_insert_habilidade i nome v) (tail f)
                  (t ++ [INSERT_habilidade i nome])%list
      end
  end.

(** All inserts of the loop, when none fails. *)
Definition insere_todas (i : Z) (nomes : list string) (b : banco) : banco :=
  foldl (fun b nome => sql_insert_habilidade i nome b) b nomes.

Definition dono_nome (h : Habilidade.t) : Z * string :=
  (Habilidade.idealizador_id h, Habilidade.nome h).

Definition erro_excluir (m : string) : excecao :=
  HTTPException 500 ("Erro ao excluir perfil: " +:+ m).

Definition em_ordem (ids : list Z) : Prop := StronglySorted Z.lt ids.

(* ===================================================================== *)
(** ** The application as a whole                                         *)
(* ===================================================================== *)

(** [@app.get("/")] *)
Definition home : M dict :=
  ret [("mensagem", VStr "API de Cadastro funcionando 🚀")].

(** The routes that [app] registers, each with the arguments that reach
    its handler. *)
Inductive pedido :=
| GET_raiz
| POST_cadastro (idealizador : Idealizador.t)
| POST_login (credenciais : Login.t)
| GET_perfil (idealizador_id : Z)
| PUT_perfil (idealizador_id : Z) (dados : AtualizacaoPerfil.t)
| GET_habilidades (idealizador_id : Z)
| POST_habilidades (idealizador_id : Z) (habilidades : list string)
| DELETE_perfil (idealizador_id : Z).

(** The handler that each route is bound to by its decorator. *)
Definition atende `{Bcrypt} (p : pedido) : M dict :=
  match p with
  | GET_raiz => home
  | POST_cadastro idealizador => cadastrar idealizador
  | POST_login credenciais => login credenciais
  | GET_perfil i => obter_perfil i
  | PUT_perfil i dados => atualizar_perfil i dados
  | GET_habilidades i => listar_habilidades i
  | POST_habilidades i habilidades => salvar_habilidades i habilidades
  | DELETE_perfil i => excluir_perfil i
  end.

(** The world after a sequence of requests, served one after the other. *)
Fixpoint atende_todos `{Bcrypt} (ps : list pedido) (w : world) : world :=
  match ps with
  | [] => w
  | p :: ps' => atende_todos ps' (snd (atende p w))
  end.

(** The routes whose handler only reads. *)
Definition so_leitura (p : pedido) : bool :=
  match p with
  | GET_raiz | POST_login _ | GET_perfil _ | GET_habilidades _ => true
  | _ => false
  end.

(** The HTTP error statuses that the handler of each route raises. *)
Definition status_da_rota (p : pedido) : list Z :=
  match p with
  | GET_raiz => []
  | POST_cadastro _ => [400]
  | POST_login _ => [404; 401]
  | GET_perfil _ => [404]
  | PUT_perfil _ _ => [400]
  | GET_habilidades _ => []
  | POST_habilidades _ _ => []
  | DELETE_perfil _ => [404; 500]
  end.

(** The non-NULL emails of the user rows, in table order. *)
Definition emails (l : list Linha.t) : list string := omap Linha.email l.

(** A store as the schema keeps it: rowids increase along both tables (so
    primary keys are unique) and no two user rows share an email. *)
Definition bem_formado (b : banco) : Prop :=
  em_ordem (map Linha.id (idealizadores b)) /\
  em_ordem (map Habilidade.id (habilidades b)) /\
  NoDup (emails (idealizadores b)).

(** The row that a successful [cadastrar] appends. *)
Definition linha_nova (i : Idealizador.t) (hash : bytes) (b : banco) : Linha.t :=
  Linha.mk (novo_id (map Linha.id (idealizadores b)))
    (Some (Idealizador.nome i)) (Idealizador.telefone i)
    (Some (Idealizador.email i)) hash
    (Idealizador.github i) (Idealizador.linkedin i)
    (Idealizador.funcao i) (Idealizador.pais i)
    (Idealizador.cidade i) (Idealizador.sobre_mim i).

(** The id in the path of a route, and the password in its body. *)
Definition id_da_rota (p : pedido) : option Z :=
  match p with
  | GET_perfil i | PUT_perfil i _ | GET_habilidades i
  | POST_habilidades i _ | DELETE_perfil i => Some i
  | GET_raiz | POST_cadastro _ | POST_login _ => None
  end.

Definition senha_da_rota (p : pedido) : option string :=
  match p with
  | POST_cadastro i => Some (Idealizador.senha i)
  | POST_login c => Some (Login.senha c)
  | _ => None
  end.

(** What the handler of a route may answer: its response, one of the HTTP
    errors of the route, a storage error that the fault schedule holds,
    for a profile update that assigns [email] the uniqueness violation,
    [OverflowError] when the id of the path does not fit 64 bits, and, on
    the two routes that call [bcrypt], its [ValueError]. *)
Definition desfecho_esperado (p : pedido) (w : world) (o : outcome dict) : Prop :=
  match o with
  | Return _ => True
  | Raise (HTTPException c _) => c ∈ status_da_rota p
  | Raise (OperationalError m) => Some m ∈ faults w
  | Raise (IntegrityError _) =>
      exists i d, p = PUT_perfil i d /\ campo c_email d ≠ None
  | Raise (ProgrammingError _) => False
  | Raise (OverflowError _) =>
      exists i, id_da_rota p = Some i /\ cabe_em_int64 i = false
  | Raise (ValueError _) => is_Some (senha_da_rota p)
  end.

Definition idealizador_caio : Idealizador.t :=
  Idealizador.mk "Caio" None "c@x.com" "pw3" (Some "caio-dev") None None None None None.

(** The routes whose handler closes its connection in a [finally]
    clause that covers its first statement. *)
Definition fecha_no_finally (p : pedido) : bool :=
  match p with
  | POST_cadastro _ => true
  | _ => false
  end.

(** The requests whose handler gets as far as a first statement on the
    store: the route has one, and what comes before it (hashing the
    password, binding the id) does not raise. *)
Definition comeca_no_banco (p : pedido) : bool :=
  match p with
  | GET_raiz => false
  | POST_cadastro i => senha_valida (Idealizador.senha i)
  | POST_login _ => true
  | PUT_perfil i d =>
      match presentes d with [] => false | _ :: _ => cabe_em_int64 i end
  | GET_perfil i | GET_habilidades i | POST_habilidades i _ | DELETE_perfil i =>
      cabe_em_int64 i
  end.

(** The hash that [hashpw] returns when it returns. *)
Definition hash_de `{Bcrypt} (password salt : bytes) : bytes :=
  salt_de salt +:+ digest (salt_de salt) password.

(** An update of id [i] with input [d] runs into the uniqueness of
    [email]: [d] assigns an email that a row with another id has, and a row
    has id [i]. *)
Definition conflito_email (i : Z) (d : AtualizacaoPerfil.t) (b : banco) : Prop :=
  exists e r0 r1,
    AtualizacaoPerfil.email d = Some e /\
    r0 ∈ idealizadores b /\ Linha.id r0 = i /\
    r1 ∈ idealizadores b /\ Linha.id r1 ≠ i /\ Linha.email r1 = Some e.

(** The profile answer for a user row and a list of skill names: every
    column but [senha], NULL as the empty string. *)
Definition perfil_de (r : Linha.t) (habs : list string) : dict :=
  [("id", VInt (Linha.id r));
   ("nome", VStr (default "" (Linha.nome r)));
   ("telefone", VStr (default "" (Linha.telefone r)));
   ("email", VStr (default "" (Linha.email r)));
   ("github", VStr (default "" (Linha.github r)));
   ("linkedin", VStr (default "" (Linha.linkedin r)));
   ("funcao", VStr (default "" (Linha.funcao r)));
   ("pais", VStr (default "" (Linha.pais r)));
   ("cidade", VStr (default "" (Linha.cidade r)));
   ("sobre_mim", VStr (default "" (Linha.sobre_mim r)));
   ("habilidades", VLista habs)].

(* ===================================================================== *)
(** ** Lemmas and theorems                                                *)
(* ===================================================================== *)

Lemma novo_handle_fresh (w : world) : conns w !! novo_handle w = None.
Proof.
  unfold novo_handle. apply not_elem_of_dom. apply is_fresh.
Qed.

Lemma novo_handle_set_disk b w : novo_handle (set_disk b w) = novo_handle w.
Proof. reflexivity. Qed.

Lemma connect_eq (w : world) :
  connect w = (Return (novo_handle w), sess w (novo_handle w) (disk w) (faults w) []).
Proof.
  unfold connect, sess, set_conns. by rewrite app_nil_r.
Qed.

Lemma execute_eq h s w v f t :
  execute h s (sess w h v f t) =
  if vincula s then
    match proxima f with
    | Some m => (Raise (OperationalError m), sess w h v (tail f) (t ++ [s]))
    | None =>
        match executa s v with
        | inl e => (Raise e, sess w h v (tail f) (t ++ [s]))
        | inr (a, v') => (Return a, sess w h v' (tail f) (t ++ [s]))
        end
    end
  else (Raise (OverflowError msg_overflow), sess w h v f t).
Proof.
  unfold execute, sess, attempt, set_conns; cbn [faults conns trace disk draws].
  rewrite lookup_insert_eq, <- app_assoc.
  destruct (vincula s); [|reflexivity].
  destruct f as [|[m|] f']; cbn [head proxima tail]; try reflexivity;
    destruct (executa s v) as [e|[a v']]; by rewrite ?insert_insert_eq.
Qed.

Lemma commit_eq h w v f t :
  commit h (sess w h v f t) =
  match proxima f with
  | Some m => (Raise (OperationalError m), sess w h v (tail f) (t ++ [COMMIT]))
  | None => (Return tt, sess (set_disk v w) h v (tail f) (t ++ [COMMIT]))
  end.
Proof.
  unfold commit, sess, attempt, set_disk; cbn [faults conns trace disk draws].
  rewrite lookup_insert_eq, <- app_assoc.
  destruct f as [|[m|] f']; reflexivity.
Qed.

Lemma rollback_eq h w v f t :
  rollback h (sess w h v f t) = (Return tt, sess w h (disk w) f (t ++ [ROLLBACK])).
Proof.
  unfold rollback, sess, set_conns; cbn [faults conns trace disk draws].
  by rewrite lookup_insert_eq, insert_insert_eq, <- app_assoc.
Qed.

Lemma close_eq h w v f t :
  conns w !! h = None ->
  close h (sess w h v f t) = (Return tt, fim w f t).
Proof.
  intros Hh. unfold close, sess, fim, set_conns; cbn [faults conns trace disk draws].
  by rewrite delete_insert_eq, delete_id.
Qed.

Lemma draw_salt_eq `{Bcrypt} h w v f t :
  draw_salt (sess w h v f t) =
  (Return (gensalt (draws w)), sess (set_draws (S (draws w)) w) h v f t).
Proof. reflexivity. Qed.

#[global] Opaque sess fim.

Ltac handle_novo :=
  lazymatch goal with
  | |- conns _ !! novo_handle ?w = None => exact (novo_handle_fresh w)
  end.

Ltac passo :=
  first [ rewrite connect_eq
        | rewrite execute_eq
        | rewrite commit_eq
        | rewrite rollback_eq
        | rewrite close_eq by handle_novo
        | rewrite draw_salt_eq ];
  cbn [executa proxima tail bind ret raise try_except try_finally fst snd
       vincula inteiros forallb];
  rewrite ?andb_true_r.

Tactic Notation "abre" reference(f) := unfold f; unfold bind at 1; passo.

Lemma disk_sess w h v f t : disk (sess w h v f t) = disk w.
Proof. reflexivity. Qed.
Lemma disk_fim w f t : disk (fim w f t) = disk w.
Proof. reflexivity. Qed.
Lemma trace_fim w f t : trace (fim w f t) = (trace w ++ t)%list.
Proof. reflexivity. Qed.
Lemma trace_sess w h v f t : trace (sess w h v f t) = (trace w ++ t)%list.
Proof. reflexivity. Qed.
Lemma conns_fim w f t : conns (fim w f t) = conns w.
Proof. reflexivity. Qed.
Lemma conns_sess w h v f t : conns (sess w h v f t) = <[h := v]> (conns w).
Proof. reflexivity. Qed.
Lemma faults_fim w f t : faults (fim w f t) = f.
Proof. reflexivity. Qed.
Lemma faults_sess w h v f t : faults (sess w h v f t) = f.
Proof. reflexivity. Qed.

Lemma abre_sem_fechar w v : size (<[novo_handle w := v]> (conns w)) = S (size (conns w)).
Proof. apply map_size_insert_None, novo_handle_fresh. Qed.

(** *** Salts, hashes and the 72 bytes of [bcrypt] *)

Lemma length_append (s d : string) :
  String.length (s +:+ d) = (String.length s + String.length d)%nat.
Proof.
  induction s as [|c s IH]; [done|].
  change (S (String.length (s +:+ d)) = S (String.length s + String.length d)).
  by rewrite IH.
Qed.

Lemma substring_length (n : nat) (s : string) :
  (n <= String.length s)%nat -> String.length (substring 0 n s) = n.
Proof.
  revert s. induction n as [|n IH]; intros [|c s] Hn; cbn in *; try done; try lia.
  rewrite IH; [done|lia].
Qed.

Lemma substring_append (s d : string) :
  substring 0 (String.length s) (s +:+ d) = s.
Proof.
  induction s as [|c s IH].
  - by destruct d.
  - change (String c (substring 0 (String.length s) (s +:+ d)) = String c s).
    by rewrite IH.
Qed.

Lemma substring_all (s : string) : substring 0 (String.length s) s = s.
Proof.
  induction s as [|c s IH]; [done|].
  change (String c (substring 0 (String.length s) s) = String c s). by rewrite IH.
Qed.

Lemma append_inj (s d1 d2 : string) : s +:+ d1 = s +:+ d2 -> d1 = d2.
Proof.
  induction s as [|c s IH]; [done|].
  change (String c (s +:+ d1) = String c (s +:+ d2) -> d1 = d2).
  intros [= Heq]. by apply IH.
Qed.

Lemma salt_de_length (h : bytes) :
  (29 <= String.length h)%nat -> String.length (salt_de h) = 29%nat.
Proof. apply substring_length. Qed.

Lemma salt_de_append (h d : bytes) :
  (29 <= String.length h)%nat -> salt_de (salt_de h +:+ d) = salt_de h.
Proof.
  intros Hh. unfold salt_de at 1. rewrite <- (salt_de_length h Hh) at 1.
  apply substring_append.
Qed.

Section Bcrypt_lemas.
Context `{Bcrypt}.

Lemma salt_de_gensalt (n : nat) : salt_de (gensalt n) = gensalt n.
Proof.
  unfold salt_de. rewrite <- (gensalt_length n). apply substring_all.
Qed.

Lemma hash_de_length (p salt : bytes) :
  (29 <= String.length salt)%nat -> (29 <= String.length (hash_de p salt))%nat.
Proof.
  intros Hs. unfold hash_de. rewrite length_append, (salt_de_length _ Hs). lia.
Qed.

Lemma salt_de_hash_de (p salt : bytes) :
  (29 <= String.length salt)%nat -> salt_de (hash_de p salt) = salt_de salt.
Proof. intros Hs. unfold hash_de. by apply salt_de_append. Qed.

Lemma hashpw_ok (p salt : bytes) :
  senha_valida p = true -> (29 <= String.length salt)%nat ->
  hashpw p salt = inr (hash_de p salt).
Proof.
  intros Hp Hs. unfold hashpw. rewrite Hp.
  destruct (String.length salt <? 29)%nat eqn:Hlt; [|reflexivity].
  apply Nat.ltb_lt in Hlt. lia.
Qed.

Lemma hashpw_gensalt (p : bytes) (n : nat) :
  senha_valida p = true -> hashpw p (gensalt n) = inr (hash_de p (gensalt n)).
Proof.
  intros Hp. apply hashpw_ok; [done|]. by rewrite gensalt_length.
Qed.

Lemma hashpw_longa (p salt : bytes) :
  senha_valida p = false -> hashpw p salt = inl (ValueError msg_72).
Proof. intros Hp. unfold hashpw. by rewrite Hp. Qed.

Lemma checkpw_longa (p h : bytes) :
  senha_valida p = false -> checkpw p h = inl (ValueError msg_72).
Proof. intros Hp. unfold checkpw. by rewrite hashpw_longa. Qed.

Lemma checkpw_valida (p h : bytes) :
  senha_valida p = true -> (29 <= String.length h)%nat ->
  checkpw p h = inr (bool_decide (hash_de p h = h)).
Proof. intros Hp Hh. unfold checkpw. by rewrite hashpw_ok. Qed.

Lemma checkpw_hash_de (p2 p salt : bytes) :
  senha_valida p2 = true -> (29 <= String.length salt)%nat ->
  checkpw p2 (hash_de p salt) =
  inr (bool_decide (digest (salt_de salt) p2 = digest (salt_de salt) p)).
Proof.
  intros Hp Hs. rewrite checkpw_valida by (by try apply hash_de_length).
  f_equal. apply bool_decide_ext.
  unfold hash_de at 1. rewrite (salt_de_hash_de p salt Hs). unfold hash_de.
  split; [apply append_inj|by intros ->].
Qed.

(** What the handlers do with a hash or a check: the three ways on. *)
Lemma hashpw_casos (p salt : bytes) :
  hashpw p salt = inr (hash_de p salt) \/ exists m, hashpw p salt = inl (ValueError m).
Proof.
  unfold hashpw, hash_de. destruct (senha_valida p); [|eauto].
  destruct (String.length salt <? 29)%nat; eauto.
Qed.

Lemma checkpw_casos (p h : bytes) :
  (exists b, checkpw p h = inr b) \/ exists m, checkpw p h = inl (ValueError m).
Proof.
  unfold checkpw. destruct (hashpw_casos p h) as [->|[m ->]]; eauto.
Qed.

End Bcrypt_lemas.

(** *** Filters *)

Section Filter.
Context {A : Type} (P : A -> Prop) `{!forall x, Decision (P x)}.

Lemma filter_vazio (l : list A) :
  (forall x, x ∈ l -> ~ P x) -> filter P l = [].
Proof.
  intros Hl. destruct (filter P l) as [|x l'] eqn:E; [reflexivity|].
  assert (Hx : x ∈ filter P l) by (rewrite E; left).
  apply list_elem_of_filter in Hx as [HP Hin]. by destruct (Hl x Hin).
Qed.

Lemma filter_primeiro (l : list A) :
  (exists x, x ∈ l /\ P x) ->
  exists x l', x ∈ l /\ P x /\ filter P l = x :: l'.
Proof.
  intros (x & Hin & HP). destruct (filter P l) as [|y l'] eqn:E.
  - exfalso. eapply filter_nil_not_elem_of; eauto.
  - exists y, l'. assert (Hy : y ∈ filter P l) by (rewrite E; left).
    apply list_elem_of_filter in Hy as [HPy Hy]. auto.
Qed.
End Filter.
Lemma or_vazio_default (x : option string) : or_vazio x = default "" x.
Proof.
  destruct x as [s|]; [|reflexivity]. unfold or_vazio.
  case_bool_decide; [by subst|reflexivity].
Qed.

Lemma dict_items_map d : dict_items d = map (fun c => (c, campo c d)) todas_colunas.
Proof. reflexivity. Qed.

Lemma toda_coluna c : c ∈ todas_colunas.
Proof. destruct c; unfold todas_colunas; set_solver. Qed.

Lemma coleta_eq items campos valores :
  coleta items campos valores =
  ((campos ++ map fst (presentes_de items))%list,
   (valores ++ map snd (presentes_de items))%list).
Proof.
  revert campos valores. induction items as [|[c [v|]] items IH]; intros cs vs.
  - cbn. by rewrite !app_nil_r.
  - cbn. rewrite IH, <- !app_assoc. reflexivity.
  - cbn. apply IH.
Qed.

Lemma presentes_de_elem c v items :
  (c, v) ∈ presentes_de items <-> (c, Some v) ∈ items.
Proof.
  unfold presentes_de. rewrite list_elem_of_omap. split.
  - intros ([c' [v'|]] & Hin & Heq); cbn in Heq; [|discriminate].
    by injection Heq as -> ->.
  - intros Hin. exists (c, Some v). by split.
Qed.

Lemma presentes_elem c v d : (c, v) ∈ presentes d <-> campo c d = Some v.
Proof.
  unfold presentes. rewrite presentes_de_elem, dict_items_map, list_elem_of_fmap.
  split.
  - intros (c' & Heq & _). by injection Heq as -> ->.
  - intros <-. exists c. split; [reflexivity|apply toda_coluna].
Qed.

Lemma presentes_de_sublist items :
  sublist (map fst (presentes_de items)) (map fst items).
Proof.
  induction items as [|[c [v|]] items IH]; cbn.
  - constructor.
  - by constructor.
  - by constructor.
Qed.

Lemma presentes_NoDup d : NoDup (map fst (presentes d)).
Proof.
  eapply sublist_NoDup; [|apply presentes_de_sublist].
  rewrite dict_items_map. cbn. compute_done.
Qed.

Lemma presentes_fst_elem c d :
  c ∈ map fst (presentes d) <-> exists v, campo c d = Some v.
Proof.
  rewrite list_elem_of_fmap. split.
  - intros ([c' v] & -> & Hin). exists v. by apply presentes_elem.
  - intros (v & Hv). exists (c, v). split; [reflexivity|by apply presentes_elem].
Qed.

Lemma presentes_sem_campos : presentes sem_campos = [].
Proof. reflexivity. Qed.

Lemma get_set c c' v r :
  Linha.get c (Linha.set c' v r) = if decide (c = c') then v else Linha.get c r.
Proof. destruct c, c'; reflexivity. Qed.

Lemma id_set c v r : Linha.id (Linha.set c v r) = Linha.id r.
Proof. by destruct c. Qed.

Lemma senha_set c v r : Linha.senha (Linha.set c v r) = Linha.senha r.
Proof. by destruct c. Qed.

Lemma aplica_id sets r : Linha.id (aplica sets r) = Linha.id r.
Proof.
  revert r. induction sets as [|[c v] sets IH]; intros r; [reflexivity|].
  cbn. by rewrite IH, id_set.
Qed.

Lemma aplica_senha sets r : Linha.senha (aplica sets r) = Linha.senha r.
Proof.
  revert r. induction sets as [|[c v] sets IH]; intros r; [reflexivity|].
  cbn. by rewrite IH, senha_set.
Qed.

Lemma aplica_get_fora c sets r :
  c ∉ map fst sets -> Linha.get c (aplica sets r) = Linha.get c r.
Proof.
  revert r. induction sets as [|[c' v] sets IH]; intros r Hc; [reflexivity|].
  cbn in *. apply not_elem_of_cons in Hc as [Hne Hc].
  rewrite IH, get_set by done. by rewrite decide_False.
Qed.

Lemma aplica_get_dentro c v sets r :
  NoDup (map fst sets) -> (c, v) ∈ sets -> Linha.get c (aplica sets r) = Some v.
Proof.
  revert r. induction sets as [|[c' v'] sets IH]; intros r Hnd Hin.
  - by apply elem_of_nil in Hin.
  - cbn in *. apply NoDup_cons in Hnd as [Hc' Hnd].
    apply elem_of_cons in Hin as [[= -> ->]|Hin].
    + rewrite aplica_get_fora, get_set by done. by rewrite decide_True.
    + by apply IH.
Qed.

Lemma aplica_so_presentes d r : so_presentes d r (aplica (presentes d) r).
Proof.
  repeat split; [apply aplica_id|apply aplica_senha|]. intros c.
  destruct (campo c d) as [v|] eqn:E.
  - apply aplica_get_dentro; [apply presentes_NoDup|by apply presentes_elem].
  - apply aplica_get_fora. rewrite presentes_fst_elem. intros [v Hv]. congruence.
Qed.

Lemma zip_fst_snd {A B} (l : list (A * B)) : zip (map fst l) (map snd l) = l.
Proof. induction l as [|[a b] l IH]; cbn; [done|by rewrite IH]. Qed.

Lemma linhas_atualizadas_parcial i d b :
  atualizacao_parcial i d b (mk_banco (linhas_atualizadas i d (idealizadores b)) (habilidades b)).
Proof.
  split; [reflexivity|]. cbn [idealizadores]. unfold linhas_atualizadas.
  apply Forall2_fmap_r, Forall_Forall2_diag, Forall_forall. intros r _.
  unfold compose. case_bool_decide as Hi.
  - rewrite decide_True by done. apply aplica_so_presentes.
  - by rewrite decide_False.
Qed.

Lemma linhas_atualizadas_elem i d l r :
  r ∈ linhas_atualizadas i d l ->
  (Linha.id r = i /\ exists r0, r0 ∈ l /\ Linha.id r0 = i /\ r = aplica (presentes d) r0) \/
  (Linha.id r ≠ i /\ r ∈ l).
Proof.
  unfold linhas_atualizadas. rewrite list_elem_of_fmap. intros (r0 & -> & Hin).
  case_bool_decide as Hi.
  - left. rewrite aplica_id. split; [done|]. by exists r0.
  - right. by split.
Qed.

Lemma email_aplica d r e :
  AtualizacaoPerfil.email d = Some e -> Linha.email (aplica (presentes d) r) = Some e.
Proof.
  intros He. destruct (aplica_so_presentes d r) as (_ & _ & Hget).
  specialize (Hget c_email). cbn [Linha.get campo] in Hget. by rewrite He in Hget.
Qed.

Lemma sql_update_sem_conflito i d b :
  (forall e, AtualizacaoPerfil.email d = Some e ->
     forall r, r ∈ idealizadores b -> Linha.id r ≠ i -> Linha.email r ≠ Some e) ->
  sql_update_idealizadores (map fst (presentes d)) (map snd (presentes d)) i b =
  inr (mk_banco (linhas_atualizadas i d (idealizadores b)) (habilidades b)).
Proof.
  intros Hlivre. unfold sql_update_idealizadores.
  rewrite bool_decide_eq_true_2 by (by rewrite !length_map).
  rewrite zip_fst_snd. fold (linhas_atualizadas i d (idealizadores b)).
  case_bool_decide as Hmail; [|reflexivity]. cbn [andb].
  apply presentes_fst_elem in Hmail as [e He]. cbn in He.
  destruct (viola_unique _ _) eqn:Hv; [exfalso|reflexivity].
  unfold viola_unique in Hv. apply existsb_exists in Hv as (r & Hr & Hv).
  apply andb_prop in Hv as [Hid Hv]. apply bool_decide_eq_true in Hid.
  apply list_elem_of_In, linhas_atualizadas_elem in Hr as [(_ & r0 & _ & _ & ->)|[Hne _]];
    [|done].
  rewrite (email_aplica _ _ _ He) in Hv.
  apply existsb_exists in Hv as (r' & Hr' & Hv).
  apply andb_prop in Hv as [Hid' Hv]. apply bool_decide_eq_true in Hid', Hv.
  apply list_elem_of_In, linhas_atualizadas_elem in Hr' as [[Heq _]|[_ Hin]]; [done|].
  by apply (Hlivre e He r' Hin).
Qed.

Lemma sql_update_conflito i d b e r0 r1 :
  AtualizacaoPerfil.email d = Some e ->
  r0 ∈ idealizadores b -> Linha.id r0 = i ->
  r1 ∈ idealizadores b -> Linha.id r1 ≠ i -> Linha.email r1 = Some e ->
  sql_update_idealizadores (map fst (presentes d)) (map snd (presentes d)) i b =
  inl (IntegrityError msg_unique).
Proof.
  intros He Hr0 Hi0 Hr1 Hi1 He1. unfold sql_update_idealizadores.
  rewrite bool_decide_eq_true_2 by (by rewrite !length_map).
  rewrite zip_fst_snd. fold (linhas_atualizadas i d (idealizadores b)).
  rewrite bool_decide_eq_true_2 by (apply presentes_fst_elem; by exists e).
  cbn [andb]. replace (viola_unique _ _) with true; [reflexivity|].
  symmetry. apply existsb_exists. exists (aplica (presentes d) r0). split.
  - apply list_elem_of_In, list_elem_of_fmap. exists r0.
    by rewrite bool_decide_eq_true_2.
  - rewrite aplica_id, bool_decide_eq_true_2 by done. cbn [andb].
    rewrite (email_aplica _ _ _ He). apply existsb_exists. exists r1. split.
    + apply list_elem_of_In, list_elem_of_fmap. exists r1.
      by rewrite bool_decide_eq_false_2.
    + by rewrite !bool_decide_eq_true_2.
Qed.

Lemma sem_campos_unico d : (forall c, campo c d = None) -> d = sem_campos.
Proof.
  intros Hd. destruct d as [a1 a2 a3 a4 a5 a6 a7 a8 a9].
  pose proof (Hd c_nome). pose proof (Hd c_telefone). pose proof (Hd c_github).
  pose proof (Hd c_linkedin). pose proof (Hd c_funcao). pose proof (Hd c_pais).
  pose proof (Hd c_cidade). pose proof (Hd c_sobre_mim). pose proof (Hd c_email).
  cbn in *. by subst.
Qed.

Lemma presentes_nao_vazio d : (exists c v, campo c d = Some v) -> presentes d ≠ [].
Proof.
  intros (c & v & Hc) Hp. apply presentes_elem in Hc. rewrite Hp in Hc.
  by apply elem_of_nil in Hc.
Qed.

(** *** The handlers, under every fault schedule *)

Lemma obter_perfil_geral (i : Z) (w : world) :
  obter_perfil i w =
  let h := novo_handle w in
  let f := faults w in
  if cabe_em_int64 i then
    match proxima f with
    | Some m => (Raise (OperationalError m), sess w h (disk w) (tail f) [SELECT_perfil i])
    | None =>
        match sql_select_perfil i (disk w) with
        | None => (Raise (HTTPException 404 "Perfil não encontrado"),
                   fim w (tail f) [SELECT_perfil i])
        | Some r =>
            match proxima (tail f) with
            | Some m => (Raise (OperationalError m),
                         sess w h (disk w) (tail (tail f))
                           [SELECT_perfil i; SELECT_habilidades i])
            | None => (Return (corpo_perfil r (sql_select_habilidades i (disk w))),
                       fim w (tail (tail f)) [SELECT_perfil i; SELECT_habilidades i])
            end
        end
    end
  else (Raise (OverflowError msg_overflow), sess w h (disk w) f []).
Proof.
  abre obter_perfil. unfold bind at 1. passo. cbn zeta.
  destruct (cabe_em_int64 i) eqn:Hi; [|reflexivity].
  destruct (proxima (faults w)); [reflexivity|].
  destruct (sql_select_perfil i (disk w)) as [r|].
  - unfold bind at 1. passo. rewrite Hi.
    destruct (proxima (tail (faults w))); [reflexivity|].
    unfold bind. passo. reflexivity.
  - unfold bind. passo. reflexivity.
Qed.

Lemma obter_perfil_fst i w : fst (obter_perfil i w) = le_perfil i (faults w) (disk w).
Proof.
  rewrite obter_perfil_geral. unfold le_perfil. cbn zeta.
  destruct (cabe_em_int64 i); [|reflexivity].
  destruct (proxima (faults w)); [reflexivity|].
  destruct (sql_select_perfil i (disk w)); [|reflexivity].
  by destruct (proxima (tail (faults w))).
Qed.

Lemma listar_habilidades_geral (i : Z) (w : world) :
  listar_habilidades i w =
  if cabe_em_int64 i then
    match proxima (faults w) with
    | Some m => (Raise (OperationalError m),
                 sess w (novo_handle w) (disk w) (tail (faults w)) [SELECT_habilidades i])
    | None => (Return [("habilidades", VLista (sql_select_habilidades i (disk w)))],
               fim w (tail (faults w)) [SELECT_habilidades i])
    end
  else (Raise (OverflowError msg_overflow),
        sess w (novo_handle w) (disk w) (faults w) []).
Proof.
  abre listar_habilidades. unfold bind at 1. passo.
  destruct (cabe_em_int64 i); [|reflexivity].
  destruct (proxima (faults w)); [reflexivity|].
  unfold bind. passo. reflexivity.
Qed.

Lemma listar_habilidades_fst i w :
  fst (listar_habilidades i w) = le_habilidades i (faults w) (disk w).
Proof.
  rewrite listar_habilidades_geral. unfold le_habilidades.
  destruct (cabe_em_int64 i); [|reflexivity]. by destruct (proxima (faults w)).
Qed.

Lemma login_geral `{Bcrypt} (c : Login.t) (w : world) :
  login c w =
  match proxima (faults w) with
  | Some m => (Raise (OperationalError m),
               sess w (novo_handle w) (disk w) (tail (faults w))
                 [SELECT_login (Login.email c)])
  | None =>
      (match sql_select_login (Login.email c) (disk w) with
       | None => Raise (HTTPException 404 "Usuário não encontrado")
       | Some (id_usuario, senha_armazenada, nome) =>
           match checkpw (Login.senha c) senha_armazenada with
           | inl e => Raise e
           | inr true =>
               Return [("mensagem", VStr ("Bem-vindo " +:+ formata nome +:+ "!"));
                       ("id", VInt id_usuario)]
           | inr false => Raise (HTTPException 401 "Senha incorreta")
           end
       end,
       fim w (tail (faults w)) [SELECT_login (Login.email c)])
  end.
Proof.
  abre login. unfold bind at 1. passo.
  destruct (proxima (faults w)); [reflexivity|].
  unfold bind at 1. passo.
  destruct (sql_select_login _ _) as [[[i s] n]|]; [|reflexivity].
  unfold bind, chama. by destruct (checkpw _ s) as [e|[|]].
Qed.

Lemma cadastrar_geral `{Bcrypt} (i : Idealizador.t) (w : world) :
  cadastrar i w =
  let h := novo_handle w in
  let w1 := set_draws (S (draws w)) w in
  let f := faults w in
  match hashpw (Idealizador.senha i) (gensalt (draws w)) with
  | inl e => (Raise e, sess w1 h (disk w) f [])
  | inr hash =>
      match proxima f with
      | Some m => (Raise (OperationalError m), fim w1 (tail f) [INSERT_idealizador i hash])
      | None =>
          if email_em_uso (Idealizador.email i) (idealizadores (disk w))
          then (Raise (HTTPException 400 "E-mail já cadastrado."),
                fim w1 (tail f) [INSERT_idealizador i hash])
          else
            match proxima (tail f) with
            | Some m => (Raise (OperationalError m),
                         fim w1 (tail (tail f)) [INSERT_idealizador i hash; COMMIT])
            | None =>
                (Return [("mensagem", VStr "Idealizador cadastrado com sucesso!")],
                 fim (set_disk
                        (mk_banco (idealizadores (disk w) ++ [linha_nova i hash (disk w)])
                                  (habilidades (disk w))) w1)
                     (tail (tail f)) [INSERT_idealizador i hash; COMMIT])
            end
      end
  end.
Proof.
  abre cadastrar. unfold bind at 1. passo. cbn zeta.
  unfold bind at 1. unfold chama at 1.
  destruct (hashpw _ _) as [e|hash]; [reflexivity|].
  unfold bind at 1. unfold try_finally, try_except. unfold bind at 1.
  passo. cbn [faults set_draws].
  destruct (proxima (faults w)).
  { passo. reflexivity. }
  unfold sql_insert_idealizador. cbn [disk set_draws].
  destruct (email_em_uso _ _).
  { unfold raise. passo. reflexivity. }
  passo. destruct (proxima (tail (faults w))).
  { passo. reflexivity. }
  passo. reflexivity.
Qed.

Lemma atualizar_perfil_geral (i : Z) (d : AtualizacaoPerfil.t) (w : world) :
  atualizar_perfil i d w =
  let h := novo_handle w in
  let f := faults w in
  let campos := map fst (presentes d) in
  let valores := map snd (presentes d) in
  match presentes d with
  | [] => (Raise (HTTPException 400 "Nenhum dado enviado para atualizar."),
           sess w h (disk w) f [])
  | _ :: _ =>
      if cabe_em_int64 i then
        match proxima f with
        | Some m => (Raise (OperationalError m),
                     sess w h (disk w) (tail f) [UPDATE_idealizadores campos valores i])
        | None =>
            match sql_update_idealizadores campos valores i (disk w) with
            | inl e => (Raise e, sess w h (disk w) (tail f)
                                   [UPDATE_idealizadores campos valores i])
            | inr b' =>
                match proxima (tail f) with
                | Some m => (Raise (OperationalError m),
                             sess w h b' (tail (tail f))
                               [UPDATE_idealizadores campos valores i; COMMIT])
                | None => (Return [("mensagem", VStr "Perfil atualizado com sucesso!")],
                           fim (set_disk b' w) (tail (tail f))
                             [UPDATE_idealizadores campos valores i; COMMIT])
                end
            end
        end
      else (Raise (OverflowError msg_overflow), sess w h (disk w) f [])
  end.
Proof.
  abre atualizar_perfil. rewrite coleta_eq. cbn [app]. cbn zeta.
  fold (presentes d). destruct (presentes d) as [|[c v] p]; [reflexivity|].
  cbn [map fst snd]. unfold bind at 1. passo.
  destruct (cabe_em_int64 i); [|reflexivity].
  destruct (proxima (faults w)); [reflexivity|].
  destruct (sql_update_idealizadores _ _ _ _) as [e|b']; [reflexivity|].
  unfold bind at 1. passo.
  destruct (proxima (tail (faults w))); [reflexivity|].
  unfold bind. passo. reflexivity.
Qed.

Lemma atualizar_perfil_sem_campos_eq i w :
  atualizar_perfil i sem_campos w =
  (Raise (HTTPException 400 "Nenhum dado enviado para atualizar."),
   sess w (novo_handle w) (disk w) (faults w) []).
Proof. abre atualizar_perfil. reflexivity. Qed.

Lemma for_each_insert_eq h i nomes w v f t :
  cabe_em_int64 i = true ->
  for_each nomes (fun nome => execute h (INSERT_habilidade i nome)) (sess w h v f t) =
  let '(o, v', f', t') := insere_sob_faltas i nomes v f t in (o, sess w h v' f' t').
Proof.
  intros Hi. revert v f t. induction nomes as [|nome nomes IH]; intros v f t; [reflexivity|].
  cbn [for_each insere_sob_faltas]. unfold bind at 1. passo. rewrite Hi.
  destruct (proxima f); [reflexivity|]. apply IH.
Qed.

Lemma salvar_habilidades_geral i nomes w :
  salvar_habilidades i nomes w =
  let h := novo_handle w in
  if cabe_em_int64 i then
    match proxima (faults w) with
    | Some m => (Raise (OperationalError m),
                 sess w h (disk w) (tail (faults w)) [DELETE_habilidades i])
    | None =>
        let '(o, v', f', t') :=
          insere_sob_faltas i nomes (sql_delete_habilidades i (disk w))
            (tail (faults w)) [DELETE_habilidades i] in
        match o with
        | Raise e => (Raise e, sess w h v' f' t')
        | Return _ =>
            match proxima f' with
            | Some m => (Raise (OperationalError m),
                         sess w h v' (tail f') (t' ++ [COMMIT]))
            | None => (Return [("mensagem", VStr "Habilidades atualizadas com sucesso!")],
                       fim (set_disk v' w) (tail f') (t' ++ [COMMIT]))
            end
        end
    end
  else (Raise (OverflowError msg_overflow), sess w h (disk w) (faults w) []).
Proof.
  abre salvar_habilidades. unfold bind at 1. passo. cbn zeta.
  destruct (cabe_em_int64 i) eqn:Hi; [|reflexivity].
  destruct (proxima (faults w)); [reflexivity|].
  unfold bind at 1. rewrite (for_each_insert_eq _ _ _ _ _ _ _ Hi).
  destruct (insere_sob_faltas _ _ _ _ _) as [[[[[]|e] v'] f'] t']; [|reflexivity].
  unfold bind at 1. passo. destruct (proxima f'); [reflexivity|].
  unfold bind. passo. reflexivity.
Qed.

Lemma excluir_perfil_geral i w :
  excluir_perfil i w =
  let h := novo_handle w in
  let f := faults w in
  if cabe_em_int64 i then
    match proxima f with
    | Some m => (Raise (OperationalError m), sess w h (disk w) (tail f) [SELECT_id i])
    | None =>
        match sql_select_id i (disk w) with
        | None => (Raise (HTTPException 404 "Usuário não encontrado."),
                   fim w (tail f) [SELECT_id i])
        | Some _ =>
            match proxima (tail f) with
            | Some m =>
                (Raise (erro_excluir m),
                 fim w (tail (tail f)) [SELECT_id i; DELETE_habilidades i; ROLLBACK])
            | None =>
                match proxima (tail (tail f)) with
                | Some m =>
                    (Raise (erro_excluir m),
                     fim w (tail (tail (tail f)))
                       [SELECT_id i; DELETE_habilidades i; DELETE_idealizador i; ROLLBACK])
                | None =>
                    match proxima (tail (tail (tail f))) with
                    | Some m =>
                        (Raise (erro_excluir m),
                         fim w (tail (tail (tail (tail f))))
                           [SELECT_id i; DELETE_habilidades i; DELETE_idealizador i;
                            COMMIT; ROLLBACK])
                    | None =>
                        (Return [("mensagem",
                                  VStr "Perfil e habilidades excluídos com sucesso!")],
                         fim (set_disk
                                (sql_delete_idealizador i
                                   (sql_delete_habilidades i (disk w))) w)
                           (tail (tail (tail (tail f))))
                           [SELECT_id i; DELETE_habilidades i; DELETE_idealizador i; COMMIT])
                    end
                end
            end
        end
    end
  else (Raise (OverflowError msg_overflow), sess w h (disk w) f []).
Proof.
  abre excluir_perfil. unfold bind at 1. passo. cbn zeta.
  destruct (cabe_em_int64 i) eqn:Hi; [|reflexivity].
  destruct (proxima (faults w)); [reflexivity|].
  destruct (sql_select_id i (disk w)) as [x|].
  2:{ unfold bind. passo. reflexivity. }
  unfold bind at 1. unfold try_finally, try_except. unfold bind at 1. passo. rewrite Hi.
  destruct (proxima (tail (faults w))).
  { unfold bind at 1. passo. unfold raise. passo. reflexivity. }
  unfold bind at 1. passo. rewrite Hi.
  destruct (proxima (tail (tail (faults w)))).
  { unfold bind at 1. passo. unfold raise. passo. reflexivity. }
  passo.
  destruct (proxima (tail (tail (tail (faults w))))).
  { unfold bind at 1. passo. unfold raise. passo. reflexivity. }
  passo. reflexivity.
Qed.
Lemma ana_em_mundo_ab : linha_ana ∈ idealizadores (disk mundo_ab).
Proof. left. Qed.

Lemma em_mundo_ab (P : Linha.t -> Prop) :
  P linha_ana -> P linha_bia ->
  forall r, r ∈ idealizadores (disk mundo_ab) -> P r.
Proof.
  intros H1 H2 r Hr. cbn in Hr. rewrite !elem_of_cons in Hr.
  destruct Hr as [->|[->|Hr]]; [done..|]. by apply elem_of_nil in Hr.
Qed.

Lemma email_em_uso_true e l :
  (exists r, r ∈ l /\ Linha.email r = Some e) -> email_em_uso e l = true.
Proof.
  intros (r & Hin & He). unfold email_em_uso. apply existsb_exists.
  exists r. split; [by apply list_elem_of_In|by apply bool_decide_eq_true].
Qed.

Lemma bia_em_mundo_ab : linha_bia ∈ idealizadores (disk mundo_ab).
Proof. right. left. Qed.

(* ===================================================================== *)
(** ** The credential service                                             *)
(* ===================================================================== *)

Lemma id_grande_nao_cabe : cabe_em_int64 id_grande = false.
Proof. reflexivity. Qed.




(* ===================================================================== *)
(** ** Reading a profile, logging in, registering                         *)
(* ===================================================================== *)

Lemma obter_perfil_libera i w :
  cabe_em_int64 i = true -> faults w = [] ->
  conns (snd (obter_perfil i w)) = conns w.
Proof.
  intros Hi Hf. rewrite obter_perfil_geral, Hi, Hf. cbn zeta. cbn [proxima tail].
  by destruct (sql_select_perfil i (disk w)).
Qed.

(** C7, counterexample: reading the profile of the id 2^63, which no row
    has, raises [OverflowError]; it is not answered with 404. *)
Lemma obter_perfil_afirmado_falso : ~ obter_perfil_afirmado.
Proof.
  intros Hc. specialize (Hc id_grande mundo_ab eq_refl).
  rewrite obter_perfil_fst in Hc. unfold le_perfil in Hc.
  rewrite id_grande_nao_cabe in Hc. discriminate Hc.
  apply em_mundo_ab; discriminate.
Qed.

(** C7, amended. For every id that fits a signed 64-bit integer, profile
    read answers 404 "not found" when no row has the id; otherwise it
    answers the id and the nine text columns of the row (the [senha] column
    is not part of the answer), every NULL text column replaced by the
    empty string so that no value of the answer is null, together with the
    names of all skill rows of that id in table (insertion) order, the
    empty list when there is none. *)
Theorem obter_perfil_correto (i : Z) (w : world) :
  cabe_em_int64 i = true ->
  faults w = [] ->
  ((forall r, r ∈ idealizadores (disk w) -> Linha.id r ≠ i) ->
     fst (obter_perfil i w) = Raise (HTTPException 404 "Perfil não encontrado")) /\
  ((exists r, r ∈ idealizadores (disk w) /\ Linha.id r = i) ->
     exists r, r ∈ idealizadores (disk w) /\ Linha.id r = i /\
       fst (obter_perfil i w) =
       Return [("id", VInt i);
               ("nome", VStr (default "" (Linha.nome r)));
               ("telefone", VStr (default "" (Linha.telefone r)));
               ("email", VStr (default "" (Linha.email r)));
               ("github", VStr (default "" (Linha.github r)));
               ("linkedin", VStr (default "" (Linha.linkedin r)));
               ("funcao", VStr (default "" (Linha.funcao r)));
               ("pais", VStr (default "" (Linha.pais r)));
               ("cidade", VStr (default "" (Linha.cidade r)));
               ("sobre_mim", VStr (default "" (Linha.sobre_mim r)));
               ("habilidades",
                VLista (map Habilidade.nome
                          (filter (fun h => Habilidade.idealizador_id h = i)
                                  (habilidades (disk w)))))]) /\
  (forall d, fst (obter_perfil i w) = Return d ->
     Forall (fun kv => kv.1 ≠ "senha" /\ kv.2 ≠ VNone) d) /\
  conns (snd (obter_perfil i w)) = conns w.
Proof.
  intros Hi Hf. rewrite obter_perfil_fst, Hf. unfold le_perfil, sql_select_perfil.
  rewrite Hi. cbn [proxima tail]. repeat split.
  - intros Hno. by rewrite filter_vazio.
  - intros Hex.
    destruct (filter_primeiro (fun r => Linha.id r = i) _ Hex) as (r & l' & Hin & Hid & ->).
    exists r. repeat split; [done..|]. unfold corpo_perfil, projeta.
    cbn [res0 res1 res2 res3 res4 res5 res6 res7 res8 res9].
    rewrite !or_vazio_default, Hid. reflexivity.
  - intros d. destruct (filter _ _) as [|r l']; [discriminate|].
    intros [= <-]. unfold corpo_perfil. repeat constructor; cbn; discriminate.
  - by apply obter_perfil_libera.
Qed.

Lemma obter_perfil_correto_witness :
  fst (obter_perfil 3 mundo_ab) = Raise (HTTPException 404 "Perfil não encontrado") /\
  exists r, r ∈ idealizadores (disk mundo_ab) /\ Linha.id r = 1 /\
    fst (obter_perfil 1 mundo_ab) =
    Return [("id", VInt 1);
            ("nome", VStr (default "" (Linha.nome r)));
            ("telefone", VStr (default "" (Linha.telefone r)));
            ("email", VStr (default "" (Linha.email r)));
            ("github", VStr (default "" (Linha.github r)));
            ("linkedin", VStr (default "" (Linha.linkedin r)));
            ("funcao", VStr (default "" (Linha.funcao r)));
            ("pais", VStr (default "" (Linha.pais r)));
            ("cidade", VStr (default "" (Linha.cidade r)));
            ("sobre_mim", VStr (default "" (Linha.sobre_mim r)));
            ("habilidades",
             VLista (map Habilidade.nome
                       (filter (fun h => Habilidade.idealizador_id h = 1)
                               (habilidades (disk mundo_ab)))))].
Proof.
  split.
  - apply (obter_perfil_correto 3 mundo_ab eq_refl eq_refl).
    apply em_mundo_ab; discriminate.
  - apply (obter_perfil_correto 1 mundo_ab eq_refl eq_refl).
    eexists. split; [left|reflexivity].
Defined.

(** C5, counterexample: whatever the [bcrypt], a login with the email of
    a row and the wrong password of 73 bytes [senha_longa] raises
    [ValueError]; it is neither a success nor the 401 answer. *)
Lemma login_afirmado_falso : ~ exists B : Bcrypt, login_afirmado B.
Proof.
  intros [B Hc].
  assert (Hlogin : fst (login (Login.mk "a@x.com" senha_longa) mundo_ab)
                   = Raise (ValueError msg_72)).
  { rewrite login_geral. cbn [faults mundo_ab proxima fst Login.email Login.senha].
    change (sql_select_login "a@x.com" (disk mundo_ab))
      with (Some (Linha.id linha_ana, Linha.senha linha_ana, Linha.nome linha_ana)).
    cbv beta iota. by rewrite checkpw_longa. }
  destruct (Hc (Login.mk "a@x.com" senha_longa) mundo_ab eq_refl) as [[d Hd]|H401].
  - exists linha_ana. split; [apply ana_em_mundo_ab|reflexivity].
  - rewrite Hlogin in Hd. discriminate Hd.
  - rewrite Hlogin in H401. discriminate H401.
Qed.

(** C5, amended. Login answers 404 "not found" when no row has the email.
    When a row has it, a password of at most 72 bytes is checked against
    the stored hash of that row (a bcrypt hash, so at least its 29 bytes of
    salt), and the check returns without raising: when it fails the answer
    is 401 "unauthorized", when it holds the answer is the success message
    greeting the row's name and carrying the row's id. A password of more
    than 72 bytes, with the email of a row, raises [ValueError] instead. *)
Theorem login_correto `{Bcrypt} (c : Login.t) (w : world) :
  faults w = [] ->
  ((forall r, r ∈ idealizadores (disk w) -> Linha.email r ≠ Some (Login.email c)) ->
     fst (login c w) = Raise (HTTPException 404 "Usuário não encontrado")) /\
  ((exists r, r ∈ idealizadores (disk w) /\ Linha.email r = Some (Login.email c)) ->
     exists r, r ∈ idealizadores (disk w) /\ Linha.email r = Some (Login.email c) /\
       (checkpw (Login.senha c) (Linha.senha r) = inr true ->
        fst (login c w) =
        Return [("mensagem",
                 VStr (match Linha.nome r with
                       | Some n => "Bem-vindo " +:+ n +:+ "!"
                       | None => "Bem-vindo None!"
                       end));
                ("id", VInt (Linha.id r))]) /\
       (checkpw (Login.senha c) (Linha.senha r) = inr false ->
        fst (login c w) = Raise (HTTPException 401 "Senha incorreta")) /\
       (senha_valida (Login.senha c) = true ->
        (29 <= String.length (Linha.senha r))%nat ->
        exists b, checkpw (Login.senha c) (Linha.senha r) = inr b) /\
       (senha_valida (Login.senha c) = false ->
        fst (login c w) = Raise (ValueError msg_72))) /\
  conns (snd (login c w)) = conns w.
Proof.
  intros Hf. rewrite login_geral, Hf. cbn [proxima tail fst snd]. rewrite conns_fim.
  unfold sql_select_login. repeat split.
  - intros Hno. by rewrite filter_vazio.
  - intros Hex.
    destruct (filter_primeiro (fun r => Linha.email r = Some (Login.email c)) _ Hex)
      as (r & l' & Hin & He & ->).
    exists r. split; [done|]. split; [done|]. repeat split.
    + intros ->. by destruct (Linha.nome r).
    + by intros ->.
    + intros Hp Hh. rewrite checkpw_valida by done. eauto.
    + intros Hp. by rewrite checkpw_longa.
Qed.

Lemma login_correto_witness :
  fst (@login bcrypt_teste (Login.mk "c@x.com" "pw1") mundo_ab)
    = Raise (HTTPException 404 "Usuário não encontrado") /\
  (exists r, r ∈ idealizadores (disk mundo_ab) /\ Linha.email r = Some "a@x.com" /\
     (@checkpw bcrypt_teste "wrong" (Linha.senha r) = inr false ->
      fst (@login bcrypt_teste (Login.mk "a@x.com" "wrong") mundo_ab) =
      Raise (HTTPException 401 "Senha incorreta"))).
Proof.
  split.
  - apply (@login_correto bcrypt_teste (Login.mk "c@x.com" "pw1") mundo_ab eq_refl).
    apply em_mundo_ab; discriminate.
  - destruct (@login_correto bcrypt_teste (Login.mk "a@x.com" "wrong") mundo_ab eq_refl)
      as (_ & Hex & _).
    destruct Hex as (r & Hr & He & _ & H401 & _).
    + eexists. split; [left|reflexivity].
    + exists r. split; [exact Hr|]. split; [exact He|exact H401].
Defined.

(** The scenario of the spec on a store with one user. *)
Example login_cenario :
  fst (@login bcrypt_teste (Login.mk "a@x.com" "pw1") mundo_ab)
    = Return [("mensagem", VStr "Bem-vindo Ana!"); ("id", VInt 1)] /\
  fst (@login bcrypt_teste (Login.mk "a@x.com" "wrong") mundo_ab)
    = Raise (HTTPException 401 "Senha incorreta").
Proof. split; by vm_compute. Qed.

(** The scenario of the spec: register, register the same email again,
    log in with the right and with a wrong password. *)
Example cenario_cadastro_login :
  let w1 := snd (@cadastrar bcrypt_teste (idealizador_ana "pw1") mundo_vazio) in
  fst (@cadastrar bcrypt_teste (idealizador_ana "pw1") mundo_vazio)
    = Return [("mensagem", VStr "Idealizador cadastrado com sucesso!")] /\
  fst (@cadastrar bcrypt_teste (idealizador_ana "pw2") w1)
    = Raise (HTTPException 400 "E-mail já cadastrado.") /\
  fst (@login bcrypt_teste (Login.mk "a@x.com" "pw1") w1)
    = Return [("mensagem", VStr "Bem-vindo Ana!"); ("id", VInt 1)] /\
  fst (@login bcrypt_teste (Login.mk "a@x.com" "wrong") w1)
    = Raise (HTTPException 401 "Senha incorreta").
Proof. by vm_compute. Qed.

(** C2, counterexample: whatever the [bcrypt], registering the email of a
    row with the password of 73 bytes [senha_longa] raises [ValueError]; it
    is not answered with the conflict error. *)
Lemma cadastrar_duplicado_afirmado_falso :
  ~ exists B : Bcrypt, cadastrar_duplicado_afirmado B.
Proof.
  intros [B Hc].
  specialize (Hc (idealizador_ana senha_longa) mundo_ab eq_refl).
  rewrite cadastrar_geral in Hc. cbn zeta in Hc.
  rewrite hashpw_longa in Hc by reflexivity. discriminate Hc.
  exists linha_ana. split; [apply ana_em_mundo_ab|reflexivity].
Qed.

(** C2, amended. Registering an email that a row of the store already has,
    with a password of at most 72 bytes, answers the HTTP error "E-mail já
    cadastrado." (the handler's conflict answer, mapped from the storage
    layer's uniqueness violation) and leaves the committed store exactly as
    it was: the existing row is untouched and nothing of the failed
    insertion is applied. With a longer password [bcrypt] raises
    [ValueError] before any statement; the committed store is as it was
    then too. *)
Theorem cadastrar_email_duplicado `{Bcrypt} (i : Idealizador.t) (w : world) :
  faults w = [] ->
  (exists r, r ∈ idealizadores (disk w) /\ Linha.email r = Some (Idealizador.email i)) ->
  (senha_valida (Idealizador.senha i) = true ->
   fst (cadastrar i w) = Raise (HTTPException 400 "E-mail já cadastrado.") /\
   disk (snd (cadastrar i w)) = disk w /\
   conns (snd (cadastrar i w)) = conns w /\
   trace (snd (cadastrar i w)) =
     (trace w ++ [INSERT_idealizador i
                    (hash_de (Idealizador.senha i) (gensalt (draws w)))])%list) /\
  (senha_valida (Idealizador.senha i) = false ->
   fst (cadastrar i w) = Raise (ValueError msg_72) /\
   disk (snd (cadastrar i w)) = disk w /\
   trace (snd (cadastrar i w)) = trace w).
Proof.
  intros Hf Hex. rewrite cadastrar_geral. cbn zeta. split; intros Hp.
  - rewrite hashpw_gensalt, Hf, (email_em_uso_true _ _ Hex) by done. repeat split.
  - rewrite hashpw_longa by done. cbn [fst snd].
    by rewrite disk_sess, trace_sess, app_nil_r.
Qed.

Lemma cadastrar_email_duplicado_witness :
  let i := Idealizador.mk "Outra" None "a@x.com" "pw2" None None None None None None in
  fst (@cadastrar bcrypt_teste i mundo_ab) = Raise (HTTPException 400 "E-mail já cadastrado.") /\
  disk (snd (@cadastrar bcrypt_teste i mundo_ab)) = disk mundo_ab.
Proof.
  intros i.
  destruct (@cadastrar_email_duplicado bcrypt_teste i mundo_ab eq_refl) as [Hok _].
  - eexists. split; [left|reflexivity].
  - destruct (Hok eq_refl) as (H1 & H2 & _). split; [exact H1|exact H2].
Defined.

(* ===================================================================== *)
(** ** Partial update                                                     *)
(* ===================================================================== *)

Lemma sql_update_inl i d b e0 :
  sql_update_idealizadores (map fst (presentes d)) (map snd (presentes d)) i b = inl e0 ->
  conflito_email i d b.
Proof.
  unfold sql_update_idealizadores.
  rewrite bool_decide_eq_true_2 by (by rewrite !length_map).
  rewrite zip_fst_snd. fold (linhas_atualizadas i d (idealizadores b)).
  case_bool_decide as Hmail; [|discriminate]. cbn [andb].
  apply presentes_fst_elem in Hmail as [e He]. cbn in He.
  destruct (viola_unique _ _) eqn:Hv; [intros _|discriminate].
  unfold viola_unique in Hv. apply existsb_exists in Hv as (r & Hr & Hv).
  apply andb_prop in Hv as [Hid Hv]. apply bool_decide_eq_true in Hid.
  apply list_elem_of_In, linhas_atualizadas_elem in Hr
    as [(_ & r0 & Hr0 & Hi0 & ->)|[Hne _]]; [|done].
  rewrite (email_aplica _ _ _ He) in Hv.
  apply existsb_exists in Hv as (r' & Hr' & Hv).
  apply andb_prop in Hv as [Hid' Hv]. apply bool_decide_eq_true in Hid', Hv.
  apply list_elem_of_In, linhas_atualizadas_elem in Hr' as [[Heq _]|[_ Hin]]; [done|].
  by exists e, r0, r'.
Qed.

Lemma sql_update_inr i d b b' :
  sql_update_idealizadores (map fst (presentes d)) (map snd (presentes d)) i b = inr b' ->
  b' = mk_banco (linhas_atualizadas i d (idealizadores b)) (habilidades b).
Proof.
  unfold sql_update_idealizadores.
  rewrite bool_decide_eq_true_2 by (by rewrite !length_map).
  rewrite zip_fst_snd. fold (linhas_atualizadas i d (idealizadores b)).
  destruct (_ && _); [discriminate|]. by intros [= <-].
Qed.

Lemma sql_update_de_conflito i d b :
  conflito_email i d b ->
  sql_update_idealizadores (map fst (presentes d)) (map snd (presentes d)) i b =
  inl (IntegrityError msg_unique).
Proof.
  intros (e & r0 & r1 & He & Hr0 & Hi0 & Hr1 & Hi1 & He1).
  by apply (sql_update_conflito i d b e r0 r1).
Qed.

Lemma sql_update_sem_conflito_email i d b :
  ~ conflito_email i d b ->
  sql_update_idealizadores (map fst (presentes d)) (map snd (presentes d)) i b =
  inr (mk_banco (linhas_atualizadas i d (idealizadores b)) (habilidades b)).
Proof.
  intros Hn. destruct (sql_update_idealizadores _ _ _ _) as [e0|b'] eqn:Hu.
  - destruct Hn. by apply (sql_update_inl i d b e0).
  - f_equal. by apply sql_update_inr.
Qed.

Lemma conflito_email_decidivel i d b : conflito_email i d b \/ ~ conflito_email i d b.
Proof.
  destruct (sql_update_idealizadores (map fst (presentes d)) (map snd (presentes d)) i b)
    as [e0|b'] eqn:Hu.
  - left. by apply (sql_update_inl i d b e0).
  - right. intros Hc. rewrite (sql_update_de_conflito _ _ _ Hc) in Hu. discriminate.
Qed.

(** C8. Profile update with no field present answers the HTTP error 400
    "Nenhum dado enviado para atualizar." (bad request), hands no statement
    to the store (the trace does not grow) and leaves the committed store
    as it was: any profile read that follows answers as it would have
    before. *)
Theorem atualizar_perfil_nada_a_fazer (i : Z) (w : world) :
  let w' := snd (atualizar_perfil i sem_campos w) in
  fst (atualizar_perfil i sem_campos w) =
    Raise (HTTPException 400 "Nenhum dado enviado para atualizar.") /\
  trace w' = trace w /\
  disk w' = disk w /\
  forall j, fst (obter_perfil j w') = fst (obter_perfil j w).
Proof.
  cbn zeta. rewrite atualizar_perfil_sem_campos_eq. cbn [fst snd].
  rewrite trace_sess, disk_sess, app_nil_r. repeat split.
  intros j. by rewrite !obter_perfil_fst, faults_sess, disk_sess.
Qed.

(** C6, counterexample: in a store where user 1 has email a@x.com and user
    2 has email b@x.com, updating user 2 with only [email = a@x.com] does
    not change the email of user 2: the statement fails on the uniqueness
    of [email] and the row keeps b@x.com. *)
Lemma atualizar_perfil_afirmado_falso : ~ atualizar_perfil_afirmado.
Proof.
  intros Hc.
  assert (Hp : exists c v, campo c (so_email "a@x.com") = Some v)
    by (by exists c_email, "a@x.com").
  specialize (Hc 2 (so_email "a@x.com") mundo_ab eq_refl Hp).
  rewrite atualizar_perfil_geral in Hc. cbn zeta in Hc.
  destruct (presentes (so_email "a@x.com")) eqn:Hpres;
    [by apply (presentes_nao_vazio _ Hp)|]. rewrite <- Hpres in Hc. clear Hpres.
  change (cabe_em_int64 2) with true in Hc. cbn [faults mundo_ab proxima tail] in Hc.
  rewrite (sql_update_conflito 2 (so_email "a@x.com") (disk mundo_ab) "a@x.com"
             linha_bia linha_ana) in Hc;
    [|reflexivity|apply bia_em_mundo_ab|reflexivity|apply ana_em_mundo_ab|done|reflexivity].
  cbn [snd] in Hc. rewrite disk_sess in Hc. destruct Hc as [_ Hc].
  cbn [idealizadores disk mundo_ab] in Hc.
  apply Forall2_cons in Hc as [_ Hc]. apply Forall2_cons in Hc as [Hbia _].
  rewrite decide_True in Hbia by reflexivity. destruct Hbia as (_ & _ & Hget).
  specialize (Hget c_email). discriminate.
Qed.

(** C6, amended. For every id that fits a signed 64-bit integer and every
    input with at least one field present, profile update hands the store
    exactly one [UPDATE], restricted to the given id, that names exactly the
    present fields. Either the update runs into the uniqueness of [email]
    (the input's email is the email of a row with another id, and a row has
    the given id) or it does not. When it does not, the update is committed
    and answered with the confirmation message: the rows with the given id
    (possibly none) end with exactly the present fields changed and every
    other column, row and skill as before. When it does, the statement
    fails with the storage layer's uniqueness violation and nothing
    changes. *)
Theorem atualizar_perfil_parcial (i : Z) (d : AtualizacaoPerfil.t) (w : world) :
  cabe_em_int64 i = true ->
  faults w = [] ->
  (exists c v, campo c d = Some v) ->
  let w' := snd (atualizar_perfil i d w) in
  let instrucao_update :=
    UPDATE_idealizadores (map fst (presentes d)) (map snd (presentes d)) i in
  (forall c, c ∈ map fst (presentes d) <-> campo c d ≠ None) /\
  (conflito_email i d (disk w) \/ ~ conflito_email i d (disk w)) /\
  (~ conflito_email i d (disk w) ->
   fst (atualizar_perfil i d w) =
     Return [("mensagem", VStr "Perfil atualizado com sucesso!")] /\
   atualizacao_parcial i d (disk w) (disk w') /\
   trace w' = (trace w ++ [instrucao_update; COMMIT])%list /\
   conns w' = conns w) /\
  (conflito_email i d (disk w) ->
   fst (atualizar_perfil i d w) = Raise (IntegrityError msg_unique) /\
   disk w' = disk w /\
   trace w' = (trace w ++ [instrucao_update])%list).
Proof.
  intros Hi Hf Hp. cbn zeta. rewrite atualizar_perfil_geral. cbn zeta.
  destruct (presentes d) as [|cv p] eqn:Hpres; [by destruct (presentes_nao_vazio _ Hp)|].
  rewrite <- Hpres. clear Hpres cv p. rewrite Hi, Hf. cbn [proxima tail].
  split; [|split; [apply conflito_email_decidivel|split]].
  - intros c. rewrite presentes_fst_elem. destruct (campo c d) as [v|]; split.
    + done.
    + intros _. by exists v.
    + intros [v Hv]. discriminate.
    + done.
  - intros Hlivre. rewrite (sql_update_sem_conflito_email _ _ _ Hlivre). cbn [fst snd].
    repeat split. apply linhas_atualizadas_parcial.
  - intros Hc. rewrite (sql_update_de_conflito _ _ _ Hc). repeat split.
Qed.

Lemma atualizar_perfil_parcial_witness :
  atualizacao_parcial 2 (so_cidade "X") (disk mundo_ab)
    (disk (snd (atualizar_perfil 2 (so_cidade "X") mundo_ab))) /\
  fst (atualizar_perfil 9 (so_email "a@x.com") mundo_ab) =
    Return [("mensagem", VStr "Perfil atualizado com sucesso!")] /\
  fst (atualizar_perfil 2 (so_email "a@x.com") mundo_ab) = Raise (IntegrityError msg_unique).
Proof.
  split; [|split].
  - apply (atualizar_perfil_parcial 2 (so_cidade "X") mundo_ab eq_refl eq_refl).
    + by exists c_cidade, "X".
    + intros (e & _ & _ & He & _). discriminate He.
  - apply (atualizar_perfil_parcial 9 (so_email "a@x.com") mundo_ab eq_refl eq_refl).
    + by exists c_email, "a@x.com".
    + intros (e & r0 & _ & _ & Hr0 & Hi0 & _). revert r0 Hr0 Hi0.
      apply (em_mundo_ab (fun r => Linha.id r = 9 -> False)); discriminate.
  - apply (atualizar_perfil_parcial 2 (so_email "a@x.com") mundo_ab eq_refl eq_refl).
    + by exists c_email, "a@x.com".
    + exists "a@x.com".
      exists linha_bia, linha_ana.
      repeat split; [apply bia_em_mundo_ab|apply ana_em_mundo_ab|done].
Defined.

(** The scenario of the spec: updating only [cidade] changes only [cidade]. *)
Example atualizar_so_cidade :
  idealizadores (disk (snd (atualizar_perfil 2 (so_cidade "X") mundo_ab))) =
  [linha_ana; Linha.set c_cidade (Some "X") linha_bia].
Proof. by vm_compute. Qed.

(* ===================================================================== *)
(** ** Replacing the skills                                               *)
(* ===================================================================== *)
Lemma insere_sem_faltas i nomes v t :
  insere_sob_faltas i nomes v [] t =
  (Return tt, insere_todas i nomes v, [], (t ++ map (INSERT_habilidade i) nomes)%list).
Proof.
  revert v t. induction nomes as [|nome nomes IH]; intros v t; cbn.
  - by rewrite app_nil_r.
  - rewrite IH, <- app_assoc. reflexivity.
Qed.

Lemma insere_sem_http i nomes v f t c d :
  (insere_sob_faltas i nomes v f t).1.1.1 ≠ Raise (HTTPException c d).
Proof.
  revert v f t. induction nomes as [|nome nomes IH]; intros v f t; cbn; [done|].
  destruct (proxima f); [done|apply IH].
Qed.

Lemma insere_todas_idealizadores i nomes b :
  idealizadores (insere_todas i nomes b) = idealizadores b.
Proof.
  revert b. induction nomes as [|n nomes IH]; intros b; [reflexivity|].
  unfold insere_todas in *. cbn [foldl]. by rewrite IH.
Qed.

Lemma insere_todas_habilidades i nomes b :
  exists novas,
    habilidades (insere_todas i nomes b) = (habilidades b ++ novas)%list /\
    map dono_nome novas = map (pair i) nomes.
Proof.
  revert b. induction nomes as [|n nomes IH]; intros b.
  - exists []. by rewrite app_nil_r.
  - destruct (IH (sql_insert_habilidade i n b)) as (novas & Hh & Hn).
    eexists (_ :: novas). split.
    + unfold insere_todas in *. cbn [foldl]. rewrite Hh. cbn [sql_insert_habilidade habilidades].
      by rewrite <- app_assoc.
    + cbn. by rewrite Hn.
Qed.

Lemma select_habilidades_app i b (novas : list Habilidade.t) hs :
  habilidades b = hs ->
  map Habilidade.nome (filter (fun h => Habilidade.idealizador_id h = i) (hs ++ novas)%list) =
  (sql_select_habilidades i b ++
   map Habilidade.nome (filter (fun h => Habilidade.idealizador_id h = i) novas))%list.
Proof. intros <-. unfold sql_select_habilidades. by rewrite filter_app, map_app. Qed.

Lemma filter_dono i (novas : list Habilidade.t) nomes :
  map dono_nome novas = map (pair i) nomes ->
  map Habilidade.nome (filter (fun h => Habilidade.idealizador_id h = i) novas) = nomes.
Proof.
  revert nomes. induction novas as [|h novas IH]; intros [|n nomes] Hm; try done.
  cbn in Hm. injection Hm as Hi Hn Hm. rewrite filter_cons_True by done.
  cbn. by rewrite Hn, (IH _ Hm).
Qed.

Lemma select_delete_habilidades i b :
  sql_select_habilidades i (sql_delete_habilidades i b) = [].
Proof.
  unfold sql_select_habilidades, sql_delete_habilidades. cbn [habilidades].
  rewrite filter_vazio; [reflexivity|].
  intros h Hh. apply list_elem_of_filter in Hh as [Hne _]. done.
Qed.

Lemma select_insere_todas i nomes b :
  sql_select_habilidades i (insere_todas i nomes b) =
  (sql_select_habilidades i b ++ nomes)%list.
Proof.
  destruct (insere_todas_habilidades i nomes b) as (novas & Hh & Hn).
  unfold sql_select_habilidades at 1. rewrite Hh.
  rewrite (select_habilidades_app i b novas _ eq_refl). by rewrite (filter_dono _ _ _ Hn).
Qed.

Lemma mundo_ab_sem_id_grande :
  forall r, r ∈ idealizadores (disk mundo_ab) -> Linha.id r ≠ id_grande.
Proof. apply em_mundo_ab; discriminate. Qed.

(** C4, counterexample: replacing the skills of the id 2^63 raises
    [OverflowError] at the [DELETE], and so does the listing that follows:
    it does not answer the input list. *)
Lemma salvar_habilidades_afirmado_falso : ~ salvar_habilidades_afirmado.
Proof.
  intros Hc. specialize (Hc id_grande ["c"] mundo_ab eq_refl).
  rewrite listar_habilidades_fst in Hc. unfold le_habilidades in Hc.
  rewrite id_grande_nao_cabe in Hc. discriminate Hc.
Qed.

(** C4, amended. For every id that fits a signed 64-bit integer, skill
    replace hands the store the delete of all skill rows of the id and then
    one insert per entry of the input list, in input order and duplicates
    included; after it, the skill rows of other ids are as before, followed
    by one new row per entry, and listing the skills of the id answers
    exactly the input list. *)
Theorem salvar_habilidades_substitui (i : Z) (nomes : list string) (w : world) :
  cabe_em_int64 i = true ->
  faults w = [] ->
  let w' := snd (salvar_habilidades i nomes w) in
  fst (salvar_habilidades i nomes w) =
    Return [("mensagem", VStr "Habilidades atualizadas com sucesso!")] /\
  trace w' =
    (trace w ++ DELETE_habilidades i :: map (INSERT_habilidade i) nomes ++ [COMMIT])%list /\
  (exists novas,
     habilidades (disk w') =
       (filter (fun h => Habilidade.idealizador_id h ≠ i) (habilidades (disk w)) ++ novas)%list /\
     map dono_nome novas = map (pair i) nomes) /\
  idealizadores (disk w') = idealizadores (disk w) /\
  fst (listar_habilidades i w') = Return [("habilidades", VLista nomes)].
Proof.
  intros Hi Hf. cbn zeta. rewrite salvar_habilidades_geral, Hi, Hf. cbn [proxima tail].
  rewrite insere_sem_faltas. cbn [proxima tail fst snd].
  rewrite listar_habilidades_fst, trace_fim, disk_fim, faults_fim. cbn [disk set_disk].
  split; [reflexivity|]. split; [reflexivity|]. split; [|split].
  - apply (insere_todas_habilidades i nomes (sql_delete_habilidades i (disk w))).
  - by rewrite insere_todas_idealizadores.
  - unfold le_habilidades. rewrite Hi. cbn [proxima].
    by rewrite select_insere_todas, select_delete_habilidades.
Qed.

Lemma salvar_habilidades_substitui_witness :
  fst (listar_habilidades 1 mundo_ab) = Return [("habilidades", VLista ["a"; "b"])] /\
  fst (listar_habilidades 1 (snd (salvar_habilidades 1 ["c"; "c"] mundo_ab))) =
    Return [("habilidades", VLista ["c"; "c"])].
Proof.
  split; [reflexivity|].
  apply (salvar_habilidades_substitui 1 ["c"; "c"] mundo_ab eq_refl eq_refl).
Defined.

(** C10, counterexample: the id 2^63 has no user row, and replacing its
    skills does not succeed: the [DELETE] raises [OverflowError]. *)
Lemma salvar_sem_usuario_afirmado_falso : ~ salvar_sem_usuario_afirmado.
Proof.
  intros Hc.
  specialize (Hc id_grande ["x"] mundo_ab eq_refl mundo_ab_sem_id_grande).
  rewrite salvar_habilidades_geral in Hc. cbn zeta in Hc.
  rewrite id_grande_nao_cabe in Hc. discriminate Hc.
Qed.

(** C10, amended. Skill replace never looks the id up in [idealizadores]:
    for an id that no user row has it never answers 404, whatever the id
    and the storage faults. When the id fits a signed 64-bit integer and
    the store does not fail, it succeeds with the confirmation message and
    leaves one skill row per name owned by that id, which still has no user
    row. When the id does not fit, the [DELETE] raises [OverflowError] and
    the committed store is as it was. *)
Theorem salvar_habilidades_sem_usuario (i : Z) (nomes : list string) (w : world) :
  (forall r, r ∈ idealizadores (disk w) -> Linha.id r ≠ i) ->
  let w' := snd (salvar_habilidades i nomes w) in
  (forall c d, fst (salvar_habilidades i nomes w) ≠ Raise (HTTPException c d)) /\
  (cabe_em_int64 i = true -> faults w = [] ->
   fst (salvar_habilidades i nomes w) =
     Return [("mensagem", VStr "Habilidades atualizadas com sucesso!")] /\
   trace w' =
     (trace w ++ DELETE_habilidades i :: map (INSERT_habilidade i) nomes ++ [COMMIT])%list /\
   map Habilidade.nome
     (filter (fun h => Habilidade.idealizador_id h = i) (habilidades (disk w'))) = nomes /\
   (exists novas,
      habilidades (disk w') =
        (filter (fun h => Habilidade.idealizador_id h ≠ i) (habilidades (disk w)) ++ novas)%list /\
      map dono_nome novas = map (pair i) nomes) /\
   (forall r, r ∈ idealizadores (disk w') -> Linha.id r ≠ i)) /\
  (cabe_em_int64 i = false ->
   fst (salvar_habilidades i nomes w) = Raise (OverflowError msg_overflow) /\
   disk w' = disk w /\ trace w' = trace w).
Proof.
  intros Hno. cbn zeta. split; [|split].
  - intros c d. rewrite salvar_habilidades_geral. cbn zeta.
    destruct (cabe_em_int64 i); [|done].
    destruct (proxima (faults w)); [done|].
    pose proof (insere_sem_http i nomes (sql_delete_habilidades i (disk w))
                  (tail (faults w)) [DELETE_habilidades i] c d) as Hh.
    destruct (insere_sob_faltas _ _ _ _ _) as [[[[[]|e] v'] f'] t']; cbn in Hh.
    + by destruct (proxima f').
    + cbn [fst]. congruence.
  - intros Hi Hf. rewrite salvar_habilidades_geral, Hi, Hf. cbn [proxima tail].
    rewrite insere_sem_faltas. cbn [proxima tail fst snd].
    rewrite trace_fim, disk_fim. cbn [disk set_disk].
    split; [reflexivity|]. split; [reflexivity|]. split; [|split].
    + fold (sql_select_habilidades i
              (insere_todas i nomes (sql_delete_habilidades i (disk w)))).
      by rewrite select_insere_todas, select_delete_habilidades.
    + apply (insere_todas_habilidades i nomes (sql_delete_habilidades i (disk w))).
    + rewrite insere_todas_idealizadores. exact Hno.
  - intros Hi. rewrite salvar_habilidades_geral, Hi. cbn [fst snd].
    by rewrite disk_sess, trace_sess, app_nil_r.
Qed.

Lemma salvar_habilidades_sem_usuario_witness :
  fst (salvar_habilidades 7 ["x"; "y"] mundo_ab) =
    Return [("mensagem", VStr "Habilidades atualizadas com sucesso!")] /\
  map Habilidade.nome
    (filter (fun h => Habilidade.idealizador_id h = 7)
       (habilidades (disk (snd (salvar_habilidades 7 ["x"; "y"] mundo_ab))))) = ["x"; "y"].
Proof.
  assert (Hno : forall r, r ∈ idealizadores (disk mundo_ab) -> Linha.id r ≠ 7)
    by (apply em_mundo_ab; discriminate).
  destruct (salvar_habilidades_sem_usuario 7 ["x"; "y"] mundo_ab Hno) as (_ & Hok & _).
  destruct (Hok eq_refl eq_refl) as (H1 & _ & H3 & _). split; [exact H1|exact H3].
Defined.

(* ===================================================================== *)
(** ** Deleting a profile                                                 *)
(* ===================================================================== *)
Lemma sql_select_id_none i b :
  (forall r, r ∈ idealizadores b -> Linha.id r ≠ i) -> sql_select_id i b = None.
Proof. intros Hno. unfold sql_select_id. by rewrite filter_vazio. Qed.

Lemma sql_select_id_some i b :
  (exists r, r ∈ idealizadores b /\ Linha.id r = i) -> sql_select_id i b = Some i.
Proof.
  intros Hex. unfold sql_select_id.
  destruct (filter_primeiro (fun r => Linha.id r = i) _ Hex) as (r & l' & _ & Hi & ->).
  by rewrite Hi.
Qed.

Lemma select_perfil_delete i b :
  sql_select_perfil i (sql_delete_idealizador i b) = None.
Proof.
  unfold sql_select_perfil, sql_delete_idealizador. cbn [idealizadores].
  rewrite filter_vazio; [reflexivity|].
  intros r Hr. apply list_elem_of_filter in Hr as [Hne _]. done.
Qed.

(** C3, counterexample: deleting the profile of the id 2^63, which no row
    has, raises [OverflowError] at the existence check; it is not answered
    with 404. *)
Lemma excluir_perfil_afirmado_falso : ~ excluir_perfil_afirmado.
Proof.
  intros Hc. specialize (Hc id_grande mundo_ab eq_refl mundo_ab_sem_id_grande).
  rewrite excluir_perfil_geral in Hc. cbn zeta in Hc.
  rewrite id_grande_nao_cabe in Hc. discriminate Hc.
Qed.

(** C3, amended. For every id that fits a signed 64-bit integer, profile
    delete answers 404 "not found" and changes nothing when no user row has
    the id. When one has, it deletes the skill rows of the id, then the
    user rows of the id, and commits; after that, listing the skills of the
    id answers the empty list and reading the profile answers 404. When the
    first delete, the second delete or the commit fails with message [m],
    the answer is the HTTP error 500 carrying [m], and the committed store
    is as before the request. The handle is released on each of these
    exits. *)
Theorem excluir_perfil_correto (i : Z) (w : world) :
  cabe_em_int64 i = true ->
  let w' := snd (excluir_perfil i w) in
  (faults w = [] ->
   (forall r, r ∈ idealizadores (disk w) -> Linha.id r ≠ i) ->
   fst (excluir_perfil i w) = Raise (HTTPException 404 "Usuário não encontrado.") /\
   disk w' = disk w /\ conns w' = conns w) /\
  (faults w = [] ->
   (exists r, r ∈ idealizadores (disk w) /\ Linha.id r = i) ->
   fst (excluir_perfil i w) =
     Return [("mensagem", VStr "Perfil e habilidades excluídos com sucesso!")] /\
   disk w' =
     mk_banco (filter (fun r => Linha.id r ≠ i) (idealizadores (disk w)))
              (filter (fun h => Habilidade.idealizador_id h ≠ i) (habilidades (disk w))) /\
   trace w' =
     (trace w ++ [SELECT_id i; DELETE_habilidades i; DELETE_idealizador i; COMMIT])%list /\
   conns w' = conns w /\
   fst (listar_habilidades i w') = Return [("habilidades", VLista [])] /\
   fst (obter_perfil i w') = Raise (HTTPException 404 "Perfil não encontrado")) /\
  (forall (k : nat) (m : string) (resto : list (option string)),
     (k < 3)%nat ->
     faults w = (replicate (S k) None ++ Some m :: resto)%list ->
     (exists r, r ∈ idealizadores (disk w) /\ Linha.id r = i) ->
     fst (excluir_perfil i w) =
       Raise (HTTPException 500 ("Erro ao excluir perfil: " +:+ m)) /\
     disk w' = disk w /\ conns w' = conns w /\
     last (trace w') = Some ROLLBACK).
Proof.
  intros Hi. cbn zeta. rewrite excluir_perfil_geral, Hi. cbn zeta. split; [|split].
  - intros Hf Hno. rewrite Hf, (sql_select_id_none _ _ Hno). cbn [proxima tail].
    repeat split.
  - intros Hf Hex. rewrite Hf, (sql_select_id_some _ _ Hex). cbn [proxima tail fst snd].
    rewrite listar_habilidades_fst, obter_perfil_fst, faults_fim, disk_fim.
    cbn [disk set_disk]. unfold le_habilidades, le_perfil. rewrite Hi. cbn [proxima tail].
    rewrite select_perfil_delete. repeat split.
    unfold sql_select_habilidades, sql_delete_idealizador. cbn [habilidades].
    fold (sql_select_habilidades i (sql_delete_habilidades i (disk w))).
    by rewrite select_delete_habilidades.
  - intros k m resto Hk Hf Hex. rewrite Hf, (sql_select_id_some _ _ Hex).
    destruct k as [|[|[|k]]]; [| | |lia]; cbn [replicate app proxima tail fst snd];
      rewrite disk_fim, conns_fim, trace_fim; repeat split;
      by rewrite last_app.
Qed.

Lemma excluir_perfil_correto_witness :
  fst (excluir_perfil 9 mundo_ab) = Raise (HTTPException 404 "Usuário não encontrado.") /\
  fst (obter_perfil 1 (snd (excluir_perfil 1 mundo_ab))) =
    Raise (HTTPException 404 "Perfil não encontrado") /\
  (let w := mk_world (disk mundo_ab) ∅ [None; None; Some "disk I/O error"] [] 2 in
   fst (excluir_perfil 1 w) =
     Raise (HTTPException 500 "Erro ao excluir perfil: disk I/O error") /\
   disk (snd (excluir_perfil 1 w)) = disk w).
Proof.
  assert (Hex : exists r, r ∈ idealizadores (disk mundo_ab) /\ Linha.id r = 1)
    by (exists linha_ana; split; [apply ana_em_mundo_ab|reflexivity]).
  split; [|split].
  - apply (excluir_perfil_correto 9 mundo_ab eq_refl); [reflexivity|].
    apply em_mundo_ab; discriminate.
  - apply (excluir_perfil_correto 1 mundo_ab eq_refl); [reflexivity|exact Hex].
  - intros w.
    destruct (excluir_perfil_correto 1 w eq_refl) as (_ & _ & Hfalha).
    destruct (Hfalha 1%nat "disk I/O error" [] ltac:(lia) eq_refl Hex) as (H1 & H2 & _).
    split; [exact H1|exact H2].
Defined.

(* ===================================================================== *)
(** ** Handles left open                                                  *)
(* ===================================================================== *)
Lemma insere_falha i nomes v (k : nat) m resto t :
  (k < length nomes)%nat ->
  exists v' t',
    insere_sob_faltas i nomes v (replicate k None ++ Some m :: resto)%list t =
    (Raise (OperationalError m), v', resto, t').
Proof.
  revert nomes v t. induction k as [|k IH]; intros [|nome nomes] v t Hk;
    cbn [length] in Hk; try lia.
  - cbn. eauto.
  - cbn [replicate app insere_sob_faltas proxima tail]. apply IH. lia.
Qed.

(** C9, on the code: two exits on which the handler does not release the
    handle it acquired. The bad-request exit of [atualizar_perfil] raises
    before any [close]: the request's handle is still open afterwards, so
    one more connection is open than before. In [salvar_habilidades] no
    [close] is reached when an insert raises, be it a storage error at the
    insert or, for an id that does not fit a signed 64-bit integer, the
    [OverflowError] of the statement before it: the handle stays open. *)
Theorem conexao_nao_liberada :
  (forall (i : Z) (w : world),
     let w' := snd (atualizar_perfil i sem_campos w) in
     fst (atualizar_perfil i sem_campos w) =
       Raise (HTTPException 400 "Nenhum dado enviado para atualizar.") /\
     conns w !! novo_handle w = None /\
     conns w' !! novo_handle w = Some (disk w) /\
     size (conns w') = S (size (conns w))) /\
  (forall (i : Z) (nomes : list string) (k : nat) (m : string)
          (resto : list (option string)) (w : world),
     (k < length nomes)%nat ->
     faults w = (None :: replicate k None ++ Some m :: resto)%list ->
     let w' := snd (salvar_habilidades i nomes w) in
     fst (salvar_habilidades i nomes w) =
       Raise (if cabe_em_int64 i then OperationalError m
              else OverflowError msg_overflow) /\
     conns w !! novo_handle w = None /\
     is_Some (conns w' !! novo_handle w) /\
     size (conns w') = S (size (conns w))).
Proof.
  split.
  - intros i w. cbn zeta. rewrite atualizar_perfil_sem_campos_eq. cbn [fst snd].
    rewrite conns_sess, lookup_insert_eq, abre_sem_fechar.
    repeat split. apply novo_handle_fresh.
  - intros i nomes k m resto w Hk Hf. cbn zeta.
    rewrite salvar_habilidades_geral. cbn zeta. destruct (cabe_em_int64 i).
    + rewrite Hf. cbn [proxima tail].
      destruct (insere_falha i nomes (sql_delete_habilidades i (disk w)) k m resto
                  [DELETE_habilidades i] Hk) as (v' & t' & ->).
      cbn [fst snd]. rewrite conns_sess, lookup_insert_eq, abre_sem_fechar.
      repeat split; [apply novo_handle_fresh|by eexists].
    + cbn [fst snd]. rewrite conns_sess, lookup_insert_eq, abre_sem_fechar.
      repeat split; [apply novo_handle_fresh|by eexists].
Qed.

Lemma conexao_nao_liberada_witness :
  size (conns mundo_ab) = 0%nat /\
  size (conns (snd (atualizar_perfil 1 sem_campos mundo_ab))) = 1%nat /\
  (let w := mk_world (disk mundo_ab) ∅ [None; Some "disk I/O error"] [] 2 in
   fst (salvar_habilidades 1 ["c"] w) = Raise (OperationalError "disk I/O error") /\
   size (conns (snd (salvar_habilidades 1 ["c"] w))) = 1%nat).
Proof.
  destruct conexao_nao_liberada as [Hput Hpost].
  split; [reflexivity|]. split.
  - apply (Hput 1 mundo_ab).
  - intros w.
    destruct (Hpost 1 ["c"] 0%nat "disk I/O error" [] w ltac:(cbn; lia) eq_refl)
      as (H1 & _ & _ & H4).
    split; [exact H1|exact H4].
Defined.

(* ===================================================================== *)
(** ** Table order is rowid order                                         *)
(* ===================================================================== *)
(** A new rowid is larger than every rowid of the table, so appending the
    new row keeps the table in rowid order, which is the order in which
    the rows were inserted. *)
Lemma novo_id_maior (ids : list Z) : Forall (fun x => x < novo_id ids) ids.
Proof.
  unfold novo_id. induction ids as [|x ids IH]; constructor; cbn.
  - lia.
  - eapply Forall_impl; [exact IH|]. cbn. intros y Hy. lia.
Qed.

Lemma em_ordem_snoc ids n :
  em_ordem ids -> Forall (fun x => x < n) ids -> em_ordem (ids ++ [n]).
Proof.
  unfold em_ordem. induction 1 as [|x ids Hs IH Hx]; intros Hn; cbn.
  - repeat constructor.
  - apply Forall_cons in Hn as [Hxn Hn]. constructor; [by apply IH|].
    apply Forall_app. split; [exact Hx|by repeat constructor].
Qed.

Lemma em_ordem_filter {A} (chave : A -> Z) (P : A -> Prop) `{!forall x, Decision (P x)}
    (l : list A) :
  em_ordem (map chave l) -> em_ordem (map chave (filter P l)).
Proof.
  unfold em_ordem. induction l as [|a l IH]; [done|].
  intros Hs. cbn [map] in Hs. apply StronglySorted_inv in Hs as [Hs Ha].
  destruct (decide (P a)) as [HP|HP].
  - rewrite filter_cons_True by done. cbn [map]. constructor; [by apply IH|].
    apply Forall_forall. intros y Hy. rewrite Forall_forall in Ha. apply Ha.
    apply list_elem_of_fmap in Hy as (b & -> & Hb).
    apply list_elem_of_filter in Hb as [_ Hb]. apply list_elem_of_fmap. by exists b.
  - rewrite filter_cons_False by done. by apply IH.
Qed.

Lemma insert_habilidade_em_ordem i n b :
  em_ordem (map Habilidade.id (habilidades b)) ->
  em_ordem (map Habilidade.id (habilidades (sql_insert_habilidade i n b))).
Proof.
  intros Hs. cbn [sql_insert_habilidade habilidades]. rewrite map_app. cbn [map Habilidade.id].
  apply em_ordem_snoc; [exact Hs|apply novo_id_maior].
Qed.

Lemma delete_habilidades_em_ordem i b :
  em_ordem (map Habilidade.id (habilidades b)) ->
  em_ordem (map Habilidade.id (habilidades (sql_delete_habilidades i b))).
Proof. apply em_ordem_filter. Qed.

Lemma proxima_elem f m : proxima f = Some m -> Some m ∈ f.
Proof. destruct f as [|[m'|] f]; cbn; [done| |done]. intros [= ->]. left. Qed.

Lemma tail_elem {A} (x : A) (f : list A) : x ∈ tail f -> x ∈ f.
Proof. destruct f; cbn; [done|]. by right. Qed.

Lemma insere_resto i nomes v f t :
  forall x, x ∈ (insere_sob_faltas i nomes v f t).1.2 -> x ∈ f.
Proof.
  revert v f t. induction nomes as [|nome nomes IH]; intros v f t x; cbn; [done|].
  destruct (proxima f); cbn.
  - apply tail_elem.
  - intros Hx. apply tail_elem. by eapply IH.
Qed.

Lemma insere_erro i nomes v f t e :
  (insere_sob_faltas i nomes v f t).1.1.1 = Raise e ->
  exists m, e = OperationalError m /\ Some m ∈ f.
Proof.
  revert v f t. induction nomes as [|nome nomes IH]; intros v f t; cbn; [done|].
  destruct (proxima f) as [m|] eqn:Hp; cbn.
  - intros [= <-]. exists m. split; [done|by apply proxima_elem].
  - intros He. destruct (IH _ _ _ He) as (m & -> & Hm).
    exists m. split; [done|by apply tail_elem].
Qed.

Lemma sql_update_erro campos valores i b e :
  length campos = length valores ->
  sql_update_idealizadores campos valores i b = inl e ->
  e = IntegrityError msg_unique /\ c_email ∈ campos.
Proof.
  intros Hl. unfold sql_update_idealizadores.
  rewrite bool_decide_eq_true_2 by done.
  case_bool_decide as Hc; cbn [andb]; [|done].
  destruct (viola_unique _ _); [|done]. by intros [= <-].
Qed.

(* ===================================================================== *)
(** ** Every handler under every fault schedule                           *)
(* ===================================================================== *)

Section Rotas.
Context `{Bcrypt}.

(** X1. Whatever the route, its arguments, the store and the storage
    faults to come, the handler answers its response, an HTTP error with one
    of the statuses of its route (400 for registration and profile update,
    404 and 401 for login, 404 for profile read, 404 and 500 for profile
    delete, none for the other routes), a storage error taken from the fault
    schedule, only for a profile update that assigns [email] the uniqueness
    violation of the store, only for a route with an id in its path that
    does not fit a signed 64-bit integer [OverflowError], or, only for
    registration and login, the [ValueError] of [bcrypt]. It never fails for
    using a closed connection or for a wrong number of statement
    parameters. *)
Theorem atende_desfecho (p : pedido) (w : world) :
  desfecho_esperado p w (fst (atende p w)).
Proof.
  destruct p as [|i|c|i|i d|i|i nomes|i]; cbn [atende].
  - exact I.
  - rewrite cadastrar_geral. cbn zeta.
    destruct (hashpw_casos (Idealizador.senha i) (gensalt (draws w))) as [->|[m ->]];
      [|by eexists].
    destruct (proxima (faults w)) as [m|] eqn:H1; [by apply proxima_elem|].
    destruct (email_em_uso _ _); [cbn; set_solver|].
    destruct (proxima (tail (faults w))) as [m|] eqn:H2; [|exact I].
    by apply tail_elem, proxima_elem.
  - rewrite login_geral.
    destruct (proxima (faults w)) as [m|] eqn:H1; [by apply proxima_elem|].
    cbn [fst]. destruct (sql_select_login _ _) as [[[j s] n]|]; [|cbn; set_solver].
    destruct (checkpw_casos (Login.senha c) s) as [[[|] ->]|[m ->]];
      [exact I|cbn; set_solver|by eexists].
  - rewrite obter_perfil_geral. cbn zeta.
    destruct (cabe_em_int64 i) eqn:Hi; [|by exists i].
    destruct (proxima (faults w)) as [m|] eqn:H1; [by apply proxima_elem|].
    destruct (sql_select_perfil _ _); [|cbn; set_solver].
    destruct (proxima (tail (faults w))) as [m|] eqn:H2; [|exact I].
    by apply tail_elem, proxima_elem.
  - rewrite atualizar_perfil_geral. cbn zeta.
    destruct (presentes d) as [|cv ps] eqn:Hp; [cbn; set_solver|]. rewrite <- Hp.
    destruct (cabe_em_int64 i) eqn:Hi; [|by exists i].
    destruct (proxima (faults w)) as [m|] eqn:H1; [by apply proxima_elem|].
    destruct (sql_update_idealizadores _ _ _ _) as [e|b'] eqn:Hu.
    + apply sql_update_erro in Hu as [-> Hc]; [|by rewrite !length_map].
      cbn [fst desfecho_esperado]. exists i, d. split; [done|].
      apply presentes_fst_elem in Hc as [v Hv]. by rewrite Hv.
    + destruct (proxima (tail (faults w))) as [m|] eqn:H2; [|exact I].
      by apply tail_elem, proxima_elem.
  - rewrite listar_habilidades_geral.
    destruct (cabe_em_int64 i) eqn:Hi; [|by exists i].
    destruct (proxima (faults w)) as [m|] eqn:H1; [by apply proxima_elem|exact I].
  - rewrite salvar_habilidades_geral. cbn zeta.
    destruct (cabe_em_int64 i) eqn:Hi; [|by exists i].
    destruct (proxima (faults w)) as [m|] eqn:H1; [by apply proxima_elem|].
    pose proof (insere_erro i nomes (sql_delete_habilidades i (disk w))
                  (tail (faults w)) [DELETE_habilidades i]) as He.
    pose proof (insere_resto i nomes (sql_delete_habilidades i (disk w))
                  (tail (faults w)) [DELETE_habilidades i]) as Hr.
    destruct (insere_sob_faltas _ _ _ _ _) as [[[[[]|e] v'] f'] t']; cbn in He, Hr.
    + destruct (proxima f') as [m|] eqn:H2; [|exact I].
      by apply tail_elem, Hr, proxima_elem.
    + destruct (He e eq_refl) as (m & -> & Hm). by apply tail_elem.
  - rewrite excluir_perfil_geral. cbn zeta.
    destruct (cabe_em_int64 i) eqn:Hi; [|by exists i].
    destruct (proxima (faults w)) as [m|] eqn:H1; [by apply proxima_elem|].
    destruct (sql_select_id _ _); [|cbn; set_solver].
    destruct (proxima (tail (faults w))); [cbn; set_solver|].
    destruct (proxima (tail (tail (faults w)))); [cbn; set_solver|].
    destruct (proxima (tail (tail (tail (faults w))))); [cbn; set_solver|exact I].
Qed.

End Rotas.

Ltac casos :=
  repeat match goal with
         | |- context [match ?x with _ => _ end] => destruct x
         end.

Ltac por_rota p :=
  destruct p; cbn [atende so_leitura];
  rewrite ?cadastrar_geral, ?login_geral, ?obter_perfil_geral,
    ?atualizar_perfil_geral, ?listar_habilidades_geral, ?salvar_habilidades_geral,
    ?excluir_perfil_geral;
  cbn zeta; casos; cbn [fst snd home ret].

Section Rotas_e_armazenamento.
Context `{Bcrypt}.

(** X2. A request that is answered with an error, whatever the error and
    whatever the route, leaves the committed content of the store as it
    was: no handler commits and then fails. *)
Theorem erro_nao_altera_disco (p : pedido) (w : world) (e : excecao) :
  fst (atende p w) = Raise e -> disk (snd (atende p w)) = disk w.
Proof.
  por_rota p; intros He; try discriminate He;
    rewrite ?disk_sess, ?disk_fim; reflexivity.
Qed.

(** X3. A request that is answered with its response (no error), whatever
    the route, has released the connection it opened: the open connections
    are those open before the request. *)
Theorem sucesso_libera_conexao (p : pedido) (w : world) (d : dict) :
  fst (atende p w) = Return d -> conns (snd (atende p w)) = conns w.
Proof.
  por_rota p; intros He; try discriminate He; rewrite ?conns_fim; reflexivity.
Qed.

(** X4. The routes [/], [/login], GET [/perfil/{id}] and GET
    [/habilidades/{id}] never change the committed content of the store,
    whatever they answer and whatever the storage faults. *)
Theorem leitura_nao_altera_disco (p : pedido) (w : world) :
  so_leitura p = true -> disk (snd (atende p w)) = disk w.
Proof.
  por_rota p; intros Hl; try discriminate Hl;
    rewrite ?disk_sess, ?disk_fim; reflexivity.
Qed.

End Rotas_e_armazenamento.

Lemma erro_nao_altera_disco_witness :
  let p := POST_cadastro (idealizador_ana "pw2") in
  fst (@atende bcrypt_teste p mundo_ab) = Raise (HTTPException 400 "E-mail já cadastrado.") /\
  disk (snd (@atende bcrypt_teste p mundo_ab)) = disk mundo_ab.
Proof.
  intros p. assert (He : fst (@atende bcrypt_teste p mundo_ab)
                         = Raise (HTTPException 400 "E-mail já cadastrado."))
    by (by vm_compute).
  split; [exact He|]. exact (@erro_nao_altera_disco bcrypt_teste p mundo_ab _ He).
Defined.

Lemma sucesso_libera_conexao_witness :
  conns (snd (@atende bcrypt_teste (POST_habilidades 2 ["x"]) mundo_ab)) = conns mundo_ab.
Proof.
  apply (@sucesso_libera_conexao bcrypt_teste (POST_habilidades 2 ["x"]) mundo_ab
           [("mensagem", VStr "Habilidades atualizadas com sucesso!")]).
  by vm_compute.
Defined.

Lemma leitura_nao_altera_disco_witness :
  disk (snd (@atende bcrypt_teste (POST_login (Login.mk "a@x.com" "pw1")) mundo_ab))
  = disk mundo_ab.
Proof.
  apply (@leitura_nao_altera_disco bcrypt_teste
           (POST_login (Login.mk "a@x.com" "pw1")) mundo_ab eq_refl).
Defined.

(* ===================================================================== *)
(** ** The store stays well formed                                        *)
(* ===================================================================== *)

Lemma em_ordem_NoDup ids : em_ordem ids -> NoDup ids.
Proof.
  unfold em_ordem. induction 1 as [|x ids Hs IH Hx]; constructor; [|done].
  intros Hin. rewrite Forall_forall in Hx. specialize (Hx x Hin). lia.
Qed.

Lemma emails_elem e l : e ∈ emails l <-> exists r, r ∈ l /\ Linha.email r = Some e.
Proof. unfold emails. apply list_elem_of_omap. Qed.

Lemma emails_cons r l :
  emails (r :: l) =
  match Linha.email r with
  | Some e => e :: emails l
  | None => emails l
  end.
Proof. reflexivity. Qed.

Lemma emails_app l1 l2 : emails (l1 ++ l2) = (emails l1 ++ emails l2)%list.
Proof. unfold emails. apply omap_app. Qed.

Lemma email_em_uso_false e l : email_em_uso e l = false -> e ∉ emails l.
Proof.
  intros Hf Hin. apply emails_elem in Hin. by rewrite (email_em_uso_true e l Hin) in Hf.
Qed.

Lemma emails_filter_sublist (P : Linha.t -> Prop) `{!forall r, Decision (P r)} l :
  sublist (emails (filter P l)) (emails l).
Proof.
  unfold emails. induction l as [|r l IH]; [constructor|].
  destruct (decide (P r)).
  - rewrite filter_cons_True by done. cbn. destruct (Linha.email r); [by constructor|done].
  - rewrite filter_cons_False by done. cbn. destruct (Linha.email r); [by constructor|done].
Qed.

Lemma viola_unique_false_inv i novo :
  viola_unique i novo = false ->
  forall r r' e, r ∈ novo -> Linha.id r = i -> Linha.email r = Some e ->
                 r' ∈ novo -> Linha.id r' ≠ i -> Linha.email r' ≠ Some e.
Proof.
  intros Hv r r' e Hr Hi He Hr' Hi' He'.
  assert (Ht : viola_unique i novo = true); [|congruence].
  apply existsb_exists. exists r. split; [by apply list_elem_of_In|].
  rewrite bool_decide_eq_true_2, He by done. cbn [andb].
  apply existsb_exists. exists r'. split; [by apply list_elem_of_In|].
  by rewrite !bool_decide_eq_true_2.
Qed.

(** The rows that an [UPDATE ... WHERE id = i] with assignments [sets]
    leaves. *)
Lemma atualiza_fora sets i (l : list Linha.t) :
  (forall r, r ∈ l -> Linha.id r ≠ i) ->
  map (fun r => if bool_decide (Linha.id r = i) then aplica sets r else r) l = l.
Proof.
  intros Hl. induction l as [|r l IH]; [done|]. cbn.
  rewrite bool_decide_eq_false_2 by (apply Hl; left).
  rewrite IH; [done|]. intros r' Hr'. apply Hl. by right.
Qed.

Lemma atualiza_ids sets i (l : list Linha.t) :
  map Linha.id (map (fun r => if bool_decide (Linha.id r = i) then aplica sets r else r) l)
  = map Linha.id l.
Proof.
  induction l as [|r l IH]; [done|]. cbn. rewrite IH.
  case_bool_decide; [by rewrite aplica_id|done].
Qed.

Lemma atualiza_emails_fora sets i (l : list Linha.t) :
  c_email ∉ map fst sets ->
  emails (map (fun r => if bool_decide (Linha.id r = i) then aplica sets r else r) l)
  = emails l.
Proof.
  intros Hc. unfold emails. induction l as [|r l IH]; [done|]. cbn. rewrite IH.
  case_bool_decide; [|done].
  by rewrite (aplica_get_fora c_email sets r Hc : Linha.email (aplica sets r) = _).
Qed.

Lemma atualiza_emails_NoDup sets i (l : list Linha.t) :
  let novo := map (fun r => if bool_decide (Linha.id r = i) then aplica sets r else r) l in
  NoDup (map Linha.id l) -> NoDup (emails l) ->
  viola_unique i novo = false ->
  NoDup (emails novo).
Proof.
  intros novo Hids Hmail Hv.
  destruct (decide (i ∈ map Linha.id l)) as [Hin|Hno].
  - apply list_elem_of_fmap in Hin as (r0 & Hi0 & Hr0). symmetry in Hi0.
    apply list_elem_of_split in Hr0 as (l1 & l2 & ->).
    rewrite map_app in Hids. cbn [map] in Hids.
    apply NoDup_app in Hids as (_ & Hd1 & Hd2). apply NoDup_cons in Hd2 as [Hd2 _].
    assert (H1 : forall r, r ∈ l1 -> Linha.id r ≠ i).
    { intros r Hr Heq. apply (Hd1 (Linha.id r)); [by apply list_elem_of_fmap_2|].
      rewrite Heq, <- Hi0. left. }
    assert (H2 : forall r, r ∈ l2 -> Linha.id r ≠ i).
    { intros r Hr Heq. apply Hd2. rewrite Hi0, <- Heq. by apply list_elem_of_fmap_2. }
    assert (Hnovo : novo = (l1 ++ aplica sets r0 :: l2)%list).
    { unfold novo. rewrite map_app. cbn [map].
      rewrite (atualiza_fora _ _ _ H1), (atualiza_fora _ _ _ H2).
      by rewrite bool_decide_eq_true_2. }
    rewrite Hnovo in Hv |- *. clear novo Hnovo.
    pose proof (viola_unique_false_inv _ _ Hv) as Hu.
    rewrite emails_app in Hmail |- *.
    assert (Hrest : NoDup (emails l1 ++ emails l2)).
    { eapply sublist_NoDup; [exact Hmail|].
      apply sublist_app; [done|]. rewrite emails_cons.
      destruct (Linha.email r0); [by constructor|done]. }
    rewrite emails_cons.
    destruct (Linha.email (aplica sets r0)) as [e|] eqn:He; [|exact Hrest].
    apply NoDup_app in Hrest as (Hn1 & Hn12 & Hn2).
    apply NoDup_app. split; [exact Hn1|]. split.
    + intros x Hx1 Hx2. apply elem_of_cons in Hx2 as [->|Hx2]; [|by apply (Hn12 x)].
      apply emails_elem in Hx1 as (r' & Hr' & He').
      apply (Hu (aplica sets r0) r' e); try done.
      * apply elem_of_app. right. left.
      * by rewrite aplica_id.
      * apply elem_of_app. by left.
      * by apply H1.
    + apply NoDup_cons. split; [|exact Hn2].
      intros Hx. apply emails_elem in Hx as (r' & Hr' & He').
      apply (Hu (aplica sets r0) r' e); try done.
      * apply elem_of_app. right. left.
      * by rewrite aplica_id.
      * apply elem_of_app. right. by right.
      * by apply H2.
  - unfold novo. rewrite atualiza_fora; [done|].
    intros r Hr Hi. apply Hno. rewrite <- Hi. by apply list_elem_of_fmap_2.
Qed.

Lemma bem_formado_insert_idealizador i hash b :
  bem_formado b ->
  email_em_uso (Idealizador.email i) (idealizadores b) = false ->
  bem_formado (mk_banco (idealizadores b ++ [linha_nova i hash b]) (habilidades b)).
Proof.
  intros (Hi & Hh & He) Hlivre. split; [|split]; cbn [idealizadores habilidades].
  - rewrite map_app. apply em_ordem_snoc; [exact Hi|apply novo_id_maior].
  - exact Hh.
  - rewrite emails_app. apply NoDup_app. split; [exact He|]. split.
    + intros e He1 He2. apply list_elem_of_singleton in He2 as ->.
      by apply (email_em_uso_false _ _ Hlivre).
    + apply NoDup_singleton.
Qed.

Lemma bem_formado_update campos valores i b b' :
  sql_update_idealizadores campos valores i b = inr b' ->
  bem_formado b -> bem_formado b'.
Proof.
  unfold sql_update_idealizadores. case_bool_decide as Hl; [|done].
  intros Hu (Hi & Hh & He).
  destruct (bool_decide (c_email ∈ campos) && viola_unique i _) eqn:Hc; [done|].
  injection Hu as <-. split; [|split]; cbn [idealizadores habilidades].
  - by rewrite atualiza_ids.
  - exact Hh.
  - apply andb_false_iff in Hc as [Hc|Hc].
    + apply bool_decide_eq_false in Hc. rewrite atualiza_emails_fora; [done|].
      rewrite fst_zip by lia. exact Hc.
    + apply atualiza_emails_NoDup; [by apply em_ordem_NoDup|done|done].
Qed.

Lemma bem_formado_delete_habilidades i b :
  bem_formado b -> bem_formado (sql_delete_habilidades i b).
Proof.
  intros (Hi & Hh & He). split; [|split]; [done| |done].
  by apply delete_habilidades_em_ordem.
Qed.

Lemma bem_formado_insert_habilidade i n b :
  bem_formado b -> bem_formado (sql_insert_habilidade i n b).
Proof.
  intros (Hi & Hh & He). split; [|split]; [done| |done].
  by apply insert_habilidade_em_ordem.
Qed.

Lemma bem_formado_delete_idealizador i b :
  bem_formado b -> bem_formado (sql_delete_idealizador i b).
Proof.
  intros (Hi & Hh & He). split; [|split]; cbn [sql_delete_idealizador idealizadores habilidades].
  - by apply em_ordem_filter.
  - exact Hh.
  - eapply sublist_NoDup; [exact He|apply emails_filter_sublist].
Qed.

Lemma bem_formado_insere i nomes v f t :
  bem_formado v -> bem_formado (insere_sob_faltas i nomes v f t).1.1.2.
Proof.
  revert v f t. induction nomes as [|nome nomes IH]; intros v f t Hv; cbn; [done|].
  destruct (proxima f); cbn; [done|]. by apply IH, bem_formado_insert_habilidade.
Qed.

Section Invariante.
Context `{Bcrypt}.

Lemma atende_bem_formado (p : pedido) (w : world) :
  bem_formado (disk w) -> bem_formado (disk (snd (atende p w))).
Proof.
  intros Hw. destruct p as [|i|c|i|i d|i|i nomes|i]; cbn [atende].
  - exact Hw.
  - rewrite cadastrar_geral. cbn zeta.
    destruct (hashpw _ _) as [e|hash]; [exact Hw|].
    destruct (proxima (faults w)); [exact Hw|].
    destruct (email_em_uso _ _) eqn:He; [exact Hw|].
    destruct (proxima (tail (faults w))); [exact Hw|].
    cbn [snd]. rewrite disk_fim. by apply bem_formado_insert_idealizador.
  - rewrite login_geral. by destruct (proxima (faults w)).
  - rewrite obter_perfil_geral. cbn zeta. by casos.
  - rewrite atualizar_perfil_geral. cbn zeta.
    destruct (presentes d) as [|cv ps] eqn:Hp; [exact Hw|]. rewrite <- Hp.
    destruct (cabe_em_int64 i); [|exact Hw].
    destruct (proxima (faults w)); [exact Hw|].
    destruct (sql_update_idealizadores _ _ _ _) as [e|b'] eqn:Hu; [exact Hw|].
    destruct (proxima (tail (faults w))); [exact Hw|].
    cbn [snd]. rewrite disk_fim. by eapply bem_formado_update.
  - rewrite listar_habilidades_geral. by casos.
  - rewrite salvar_habilidades_geral. cbn zeta.
    destruct (cabe_em_int64 i); [|exact Hw].
    destruct (proxima (faults w)); [exact Hw|].
    pose proof (bem_formado_insere i nomes (sql_delete_habilidades i (disk w))
                  (tail (faults w)) [DELETE_habilidades i]
                  (bem_formado_delete_habilidades i _ Hw)) as Hv.
    destruct (insere_sob_faltas _ _ _ _ _) as [[[[[]|e] v'] f'] t']; [|exact Hw].
    destruct (proxima f'); [exact Hw|]. exact Hv.
  - rewrite excluir_perfil_geral. cbn zeta. casos; try exact Hw.
    cbn [snd]. rewrite disk_fim.
    by apply bem_formado_delete_idealizador, bem_formado_delete_habilidades.
Qed.

(** X5. Starting from a well-formed store (rowids increasing along both
    tables, hence unique primary keys, and no two user rows with the same
    email), the store is well formed after any sequence of requests to any
    routes, whatever the storage faults. *)
Theorem atende_todos_bem_formado (ps : list pedido) (w : world) :
  bem_formado (disk w) -> bem_formado (disk (atende_todos ps w)).
Proof.
  revert w. induction ps as [|p ps IH]; intros w Hw; [exact Hw|].
  cbn [atende_todos]. by apply IH, atende_bem_formado.
Qed.

End Invariante.

Lemma bem_formado_vazio : bem_formado (mk_banco [] []).
Proof. repeat split; constructor. Qed.

Lemma atende_todos_bem_formado_witness :
  bem_formado
    (disk (@atende_todos bcrypt_teste
             [POST_cadastro (idealizador_ana "pw1");
              POST_habilidades 1 ["a"; "b"];
              PUT_perfil 1 (so_cidade "Olinda");
              DELETE_perfil 1]
             mundo_vazio)).
Proof.
  apply (@atende_todos_bem_formado bcrypt_teste). apply bem_formado_vazio.
Defined.

(* ===================================================================== *)
(** ** Listing, registering, and what follows a registration              *)
(* ===================================================================== *)

(** X6. For every id that fits a signed 64-bit integer, listing the skills
    of the id hands the store one [SELECT] on [habilidades] and nothing
    else, so the users table is never consulted: the answer is the names of
    the skill rows of that id in table order, which is the empty list both
    for a user without skills and for an id that no user has; it is never
    an error, and the handle is released. *)
Theorem listar_habilidades_sem_verificar (i : Z) (w : world) :
  cabe_em_int64 i = true ->
  faults w = [] ->
  let w' := snd (listar_habilidades i w) in
  fst (listar_habilidades i w) =
    Return [("habilidades",
             VLista (map Habilidade.nome
                       (filter (fun h => Habilidade.idealizador_id h = i)
                               (habilidades (disk w)))))] /\
  ((forall h, h ∈ habilidades (disk w) -> Habilidade.idealizador_id h ≠ i) ->
   fst (listar_habilidades i w) = Return [("habilidades", VLista [])]) /\
  trace w' = (trace w ++ [SELECT_habilidades i])%list /\
  disk w' = disk w /\ conns w' = conns w.
Proof.
  intros Hi Hf. cbn zeta. rewrite listar_habilidades_geral, Hi, Hf.
  cbn [proxima tail fst snd].
  split; [reflexivity|]. split; [|by rewrite trace_fim, disk_fim, conns_fim].
  intros Hno. unfold sql_select_habilidades. by rewrite filter_vazio.
Qed.

Lemma listar_habilidades_sem_verificar_witness :
  fst (listar_habilidades 1 mundo_ab) = Return [("habilidades", VLista ["a"; "b"])] /\
  fst (listar_habilidades 2 mundo_ab) = Return [("habilidades", VLista [])] /\
  fst (listar_habilidades 9 mundo_ab) = Return [("habilidades", VLista [])].
Proof.
  split; [apply (listar_habilidades_sem_verificar 1 mundo_ab eq_refl eq_refl)|].
  split;
    [apply (listar_habilidades_sem_verificar 2 mundo_ab eq_refl eq_refl)
    |apply (listar_habilidades_sem_verificar 9 mundo_ab eq_refl eq_refl)];
    intros h Hh; cbn in Hh; rewrite !elem_of_cons in Hh;
    destruct Hh as [->|[->|Hh]]; try discriminate; by apply elem_of_nil in Hh.
Defined.
Lemma email_livre e l :
  (forall r, r ∈ l -> Linha.email r ≠ Some e) -> email_em_uso e l = false.
Proof.
  intros Hl. destruct (email_em_uso e l) eqn:He; [exfalso|done].
  unfold email_em_uso in He. apply existsb_exists in He as (r & Hr & He).
  apply bool_decide_eq_true in He. apply list_elem_of_In in Hr. by apply (Hl r).
Qed.

Lemma novo_id_fora ids : novo_id ids ∉ ids.
Proof.
  intros Hin. pose proof (novo_id_maior ids) as Hm. rewrite Forall_forall in Hm.
  specialize (Hm _ Hin). lia.
Qed.

Lemma mundo_ab_sem_email e :
  e ≠ "a@x.com" -> e ≠ "b@x.com" ->
  forall r, r ∈ idealizadores (disk mundo_ab) -> Linha.email r ≠ Some e.
Proof. intros H1 H2. apply em_mundo_ab; cbn; congruence. Qed.

Lemma cadastrar_novo_eq `{Bcrypt} (i : Idealizador.t) (w : world) :
  faults w = [] ->
  senha_valida (Idealizador.senha i) = true ->
  (forall r, r ∈ idealizadores (disk w) -> Linha.email r ≠ Some (Idealizador.email i)) ->
  cadastrar i w =
  let hash := hash_de (Idealizador.senha i) (gensalt (draws w)) in
  (Return [("mensagem", VStr "Idealizador cadastrado com sucesso!")],
   fim (set_disk
          (mk_banco (idealizadores (disk w) ++ [linha_nova i hash (disk w)])
                    (habilidades (disk w)))
          (set_draws (S (draws w)) w))
       [] [INSERT_idealizador i hash; COMMIT]).
Proof.
  intros Hf Hp Hl. rewrite cadastrar_geral. cbn zeta.
  rewrite hashpw_gensalt, Hf by done. cbn [proxima tail].
  by rewrite (email_livre _ _ Hl).
Qed.

Lemma hash_de_gensalt `{Bcrypt} (p : bytes) (n : nat) :
  hash_de p (gensalt n) = gensalt n +:+ digest (gensalt n) p.
Proof. unfold hash_de. by rewrite salt_de_gensalt. Qed.

Section Cadastro.
Context `{Bcrypt}.

(** X7. Registering an email that no user row has, with a password of at
    most 72 bytes, succeeds with the confirmation message: the users table
    gains exactly one row, placed last, whose id is the id of no earlier
    row, whose [senha] is the bcrypt hash of the given password under the
    salt just drawn (the salt followed by the digest), and whose other
    columns are the given fields; earlier rows and all skills are
    untouched, the store sees one [INSERT] and one [COMMIT], and the handle
    is released. *)
Theorem cadastrar_novo (i : Idealizador.t) (w : world) :
  faults w = [] ->
  senha_valida (Idealizador.senha i) = true ->
  (forall r, r ∈ idealizadores (disk w) -> Linha.email r ≠ Some (Idealizador.email i)) ->
  let w' := snd (cadastrar i w) in
  let hash := gensalt (draws w) +:+ digest (gensalt (draws w)) (Idealizador.senha i) in
  fst (cadastrar i w) = Return [("mensagem", VStr "Idealizador cadastrado com sucesso!")] /\
  hashpw (Idealizador.senha i) (gensalt (draws w)) = inr hash /\
  (exists id_novo,
     (id_novo ∉ map Linha.id (idealizadores (disk w))) /\
     idealizadores (disk w') =
       (idealizadores (disk w) ++
        [Linha.mk id_novo (Some (Idealizador.nome i)) (Idealizador.telefone i)
           (Some (Idealizador.email i)) hash
           (Idealizador.github i) (Idealizador.linkedin i) (Idealizador.funcao i)
           (Idealizador.pais i) (Idealizador.cidade i) (Idealizador.sobre_mim i)])%list) /\
  habilidades (disk w') = habilidades (disk w) /\
  trace w' = (trace w ++ [INSERT_idealizador i hash; COMMIT])%list /\
  conns w' = conns w.
Proof.
  intros Hf Hp Hl. cbn zeta. rewrite (cadastrar_novo_eq _ _ Hf Hp Hl). cbn [fst snd].
  rewrite hashpw_gensalt, hash_de_gensalt by done.
  split; [reflexivity|]. split; [reflexivity|]. split; [|done].
  exists (novo_id (map Linha.id (idealizadores (disk w)))).
  split; [apply novo_id_fora|reflexivity].
Qed.

(** X8. Registration followed by login. After registering an email that
    no user row had, with a password of at most 72 bytes, a login with
    that email never answers 404. With a password of at most 72 bytes it
    is decided by comparing digests under the salt that registration drew:
    when the digest of the login password is the digest of the registered
    one, in particular for the registered password itself, login succeeds
    with the new row's id and the registered name; otherwise it answers
    401. With a longer password it raises [ValueError]. *)
Theorem cadastrar_depois_login (i : Idealizador.t) (senha : string) (w : world) :
  faults w = [] ->
  senha_valida (Idealizador.senha i) = true ->
  (forall r, r ∈ idealizadores (disk w) -> Linha.email r ≠ Some (Idealizador.email i)) ->
  let w' := snd (cadastrar i w) in
  let salt := gensalt (draws w) in
  let entra (id_novo : Z) : outcome dict :=
    Return [("mensagem", VStr ("Bem-vindo " +:+ Idealizador.nome i +:+ "!"));
            ("id", VInt id_novo)] in
  exists id_novo,
    (id_novo ∉ map Linha.id (idealizadores (disk w))) /\
    (senha_valida senha = true ->
     fst (login (Login.mk (Idealizador.email i) senha) w') =
     if bool_decide (digest salt senha = digest salt (Idealizador.senha i))
     then entra id_novo
     else Raise (HTTPException 401 "Senha incorreta")) /\
    (senha_valida senha = false ->
     fst (login (Login.mk (Idealizador.email i) senha) w') = Raise (ValueError msg_72)) /\
    fst (login (Login.mk (Idealizador.email i) (Idealizador.senha i)) w') = entra id_novo.
Proof.
  intros Hf Hp Hl. cbn zeta. rewrite (cadastrar_novo_eq _ _ Hf Hp Hl). cbn [snd].
  exists (novo_id (map Linha.id (idealizadores (disk w)))).
  split; [apply novo_id_fora|].
  assert (Hs : (29 <= String.length (gensalt (draws w)))%nat) by (by rewrite gensalt_length).
  assert (Hlogin : forall s,
    fst (login (Login.mk (Idealizador.email i) s)
           (fim (set_disk
                   (mk_banco
                      (idealizadores (disk w) ++
                       [linha_nova i (hash_de (Idealizador.senha i) (gensalt (draws w)))
                          (disk w)])
                      (habilidades (disk w)))
                   (set_draws (S (draws w)) w))
              [] [INSERT_idealizador i (hash_de (Idealizador.senha i) (gensalt (draws w)));
                  COMMIT])) =
    match checkpw s (hash_de (Idealizador.senha i) (gensalt (draws w))) with
    | inl e => Raise e
    | inr true =>
        Return [("mensagem", VStr ("Bem-vindo " +:+ Idealizador.nome i +:+ "!"));
                ("id", VInt (novo_id (map Linha.id (idealizadores (disk w)))))]
    | inr false => Raise (HTTPException 401 "Senha incorreta")
    end).
  { intros s. rewrite login_geral, faults_fim. cbn [proxima fst Login.email Login.senha].
    rewrite disk_fim. cbn [disk set_disk]. unfold sql_select_login. cbn [idealizadores].
    rewrite filter_app, (filter_vazio _ (idealizadores (disk w))) by done.
    rewrite filter_cons_True by reflexivity.
    cbn [app linha_nova Linha.id Linha.senha Linha.nome]. reflexivity. }
  split; [|split].
  - intros Hp2. rewrite Hlogin, (checkpw_hash_de _ _ _ Hp2 Hs), salt_de_gensalt.
    by case_bool_decide.
  - intros Hp2. by rewrite Hlogin, checkpw_longa.
  - rewrite Hlogin, (checkpw_hash_de _ _ _ Hp Hs).
    by rewrite bool_decide_eq_true_2.
Qed.

(** X9. Registration followed by a profile read. After registering an
    email that no user row had, with a password of at most 72 bytes and
    while the next rowid still fits a signed 64-bit integer, reading the
    profile of the new row's id answers the registered fields, the optional
    fields that were not given as empty strings, and no password. The
    skills of the answer are the names of the skill rows that the store
    already held under that id: skill rows saved for an id before any user
    had it show up in the profile of the user who later gets that id. *)
Theorem cadastrar_depois_obter_perfil (i : Idealizador.t) (w : world) :
  faults w = [] ->
  senha_valida (Idealizador.senha i) = true ->
  cabe_em_int64 (novo_id (map Linha.id (idealizadores (disk w)))) = true ->
  (forall r, r ∈ idealizadores (disk w) -> Linha.email r ≠ Some (Idealizador.email i)) ->
  let w' := snd (cadastrar i w) in
  exists id_novo,
    (id_novo ∉ map Linha.id (idealizadores (disk w))) /\
    fst (obter_perfil id_novo w') =
    Return [("id", VInt id_novo);
            ("nome", VStr (Idealizador.nome i));
            ("telefone", VStr (default "" (Idealizador.telefone i)));
            ("email", VStr (Idealizador.email i));
            ("github", VStr (default "" (Idealizador.github i)));
            ("linkedin", VStr (default "" (Idealizador.linkedin i)));
            ("funcao", VStr (default "" (Idealizador.funcao i)));
            ("pais", VStr (default "" (Idealizador.pais i)));
            ("cidade", VStr (default "" (Idealizador.cidade i)));
            ("sobre_mim", VStr (default "" (Idealizador.sobre_mim i)));
            ("habilidades",
             VLista (map Habilidade.nome
                       (filter (fun h => Habilidade.idealizador_id h = id_novo)
                               (habilidades (disk w)))))].
Proof.
  intros Hf Hp Hk Hl. cbn zeta. rewrite (cadastrar_novo_eq _ _ Hf Hp Hl). cbn [snd].
  set (k := novo_id (map Linha.id (idealizadores (disk w)))) in *.
  exists k. split; [apply novo_id_fora|].
  rewrite obter_perfil_fst, faults_fim, disk_fim. cbn [disk set_disk].
  unfold le_perfil, sql_select_perfil. rewrite Hk. cbn [proxima tail idealizadores].
  rewrite filter_app, (filter_vazio _ (idealizadores (disk w))).
  2:{ intros r Hr Hrk. apply (novo_id_fora (map Linha.id (idealizadores (disk w)))).
      fold k. rewrite <- Hrk. by apply list_elem_of_fmap_2. }
  rewrite filter_cons_True by reflexivity. cbn [app].
  unfold corpo_perfil, projeta, linha_nova.
  cbn [res0 res1 res2 res3 res4 res5 res6 res7 res8 res9 Linha.id Linha.nome
       Linha.telefone Linha.email Linha.github Linha.linkedin Linha.funcao
       Linha.pais Linha.cidade Linha.sobre_mim].
  rewrite !or_vazio_default. reflexivity.
Qed.

(** X10. A storage error during registration (the password, of at most 72
    bytes, has been hashed), be it at the [INSERT] or, for an email that no
    user row has, at the [COMMIT], escapes [cadastrar] as it is (it is not
    turned into the 400 answer); the committed store is unchanged and the
    handle is released. *)
Theorem cadastrar_falha_armazenamento (i : Idealizador.t) (w : world)
    (m : string) (resto : list (option string)) :
  senha_valida (Idealizador.senha i) = true ->
  (faults w = Some m :: resto \/
   (faults w = None :: Some m :: resto /\
    forall r, r ∈ idealizadores (disk w) -> Linha.email r ≠ Some (Idealizador.email i))) ->
  let w' := snd (cadastrar i w) in
  fst (cadastrar i w) = Raise (OperationalError m) /\
  disk w' = disk w /\ conns w' = conns w.
Proof.
  intros Hp Hcaso. cbn zeta. rewrite cadastrar_geral. cbn zeta.
  rewrite hashpw_gensalt by done.
  destruct Hcaso as [Hf|[Hf Hl]]; rewrite Hf; cbn [proxima tail]; [done|].
  by rewrite (email_livre _ _ Hl).
Qed.

(** X19. A password of more than 72 bytes. [cadastrar] hashes the
    password after it has opened its connection and before its [try]:
    [bcrypt] raises [ValueError], no statement reaches the store, the
    committed store is unchanged, and the connection is left open, one more
    than before. [login] checks the password after it has closed its
    connection: for the email of a user row it raises [ValueError] after
    its one [SELECT], with the connection released. *)
Theorem senha_de_mais_de_72_bytes :
  (forall (i : Idealizador.t) (w : world),
     senha_valida (Idealizador.senha i) = false ->
     let w' := snd (cadastrar i w) in
     fst (cadastrar i w) = Raise (ValueError msg_72) /\
     trace w' = trace w /\ disk w' = disk w /\ faults w' = faults w /\
     conns w !! novo_handle w = None /\
     conns w' !! novo_handle w = Some (disk w) /\
     size (conns w') = S (size (conns w))) /\
  (forall (c : Login.t) (w : world),
     senha_valida (Login.senha c) = false ->
     faults w = [] ->
     (exists r, r ∈ idealizadores (disk w) /\ Linha.email r = Some (Login.email c)) ->
     let w' := snd (login c w) in
     fst (login c w) = Raise (ValueError msg_72) /\
     trace w' = (trace w ++ [SELECT_login (Login.email c)])%list /\
     disk w' = disk w /\ conns w' = conns w).
Proof.
  split.
  - intros i w Hp. cbn zeta. rewrite cadastrar_geral. cbn zeta.
    rewrite hashpw_longa by done. cbn [fst snd].
    rewrite trace_sess, disk_sess, faults_sess, conns_sess, app_nil_r.
    cbn [trace disk conns set_draws].
    rewrite lookup_insert_eq, abre_sem_fechar.
    repeat split. apply novo_handle_fresh.
  - intros c w Hp Hf Hex. cbn zeta. rewrite login_geral, Hf. cbn [proxima tail fst snd].
    rewrite trace_fim, disk_fim, conns_fim. split; [|done].
    unfold sql_select_login.
    destruct (filter_primeiro (fun r => Linha.email r = Some (Login.email c)) _ Hex)
      as (r & l' & _ & _ & ->).
    by rewrite checkpw_longa.
Qed.

End Cadastro.

Lemma cadastrar_novo_witness :
  fst (@cadastrar bcrypt_teste idealizador_caio mundo_ab) =
    Return [("mensagem", VStr "Idealizador cadastrado com sucesso!")] /\
  habilidades (disk (snd (@cadastrar bcrypt_teste idealizador_caio mundo_ab))) =
    habilidades (disk mundo_ab).
Proof.
  destruct (@cadastrar_novo bcrypt_teste idealizador_caio mundo_ab eq_refl eq_refl)
    as (H1 & _ & _ & H3 & _).
  - apply mundo_ab_sem_email; discriminate.
  - split; [exact H1|exact H3].
Defined.

Lemma cadastrar_depois_login_witness :
  exists id_novo,
    (id_novo ∉ map Linha.id (idealizadores (disk mundo_ab))) /\
    fst (@login bcrypt_teste (Login.mk "c@x.com" "pw3")
           (snd (@cadastrar bcrypt_teste idealizador_caio mundo_ab))) =
    Return [("mensagem", VStr "Bem-vindo Caio!"); ("id", VInt id_novo)].
Proof.
  destruct (@cadastrar_depois_login bcrypt_teste idealizador_caio "pw3" mundo_ab
              eq_refl eq_refl)
    as (k & Hk & _ & _ & Hlogin).
  - apply mundo_ab_sem_email; discriminate.
  - exists k. split; [exact Hk|exact Hlogin].
Defined.

Lemma cadastrar_depois_obter_perfil_witness :
  exists id_novo,
    (id_novo ∉ map Linha.id (idealizadores (disk mundo_ab))) /\
    fst (obter_perfil id_novo (snd (@cadastrar bcrypt_teste idealizador_caio mundo_ab))) =
    Return [("id", VInt id_novo); ("nome", VStr "Caio"); ("telefone", VStr "");
            ("email", VStr "c@x.com"); ("github", VStr "caio-dev");
            ("linkedin", VStr ""); ("funcao", VStr ""); ("pais", VStr "");
            ("cidade", VStr ""); ("sobre_mim", VStr "");
            ("habilidades",
             VLista (map Habilidade.nome
                       (filter (fun h => Habilidade.idealizador_id h = id_novo)
                               (habilidades (disk mundo_ab)))))].
Proof.
  destruct (@cadastrar_depois_obter_perfil bcrypt_teste idealizador_caio mundo_ab
              eq_refl eq_refl eq_refl)
    as (k & Hk & Hperfil).
  - apply mundo_ab_sem_email; discriminate.
  - exists k. split; [exact Hk|exact Hperfil].
Defined.

Lemma cadastrar_falha_armazenamento_witness :
  let w := mk_world (disk mundo_ab) ∅ [None; Some "database is locked"] [] 2 in
  fst (@cadastrar bcrypt_teste idealizador_caio w)
    = Raise (OperationalError "database is locked") /\
  disk (snd (@cadastrar bcrypt_teste idealizador_caio w)) = disk w.
Proof.
  intros w.
  destruct (@cadastrar_falha_armazenamento bcrypt_teste idealizador_caio w
              "database is locked" [] eq_refl) as (H1 & H2 & _).
  - right. split; [reflexivity|]. apply mundo_ab_sem_email; discriminate.
  - split; [exact H1|exact H2].
Defined.

Lemma senha_de_mais_de_72_bytes_witness :
  fst (@cadastrar bcrypt_teste (idealizador_ana senha_longa) mundo_vazio)
    = Raise (ValueError msg_72) /\
  size (conns (snd (@cadastrar bcrypt_teste (idealizador_ana senha_longa) mundo_vazio)))
    = 1%nat /\
  fst (@login bcrypt_teste (Login.mk "a@x.com" senha_longa) mundo_ab)
    = Raise (ValueError msg_72).
Proof.
  destruct (@senha_de_mais_de_72_bytes bcrypt_teste) as [Hcad Hlog].
  destruct (Hcad (idealizador_ana senha_longa) mundo_vazio eq_refl)
    as (H1 & _ & _ & _ & _ & _ & H2).
  destruct (Hlog (Login.mk "a@x.com" senha_longa) mundo_ab eq_refl eq_refl) as (H3 & _).
  - exists linha_ana. split; [apply ana_em_mundo_ab|reflexivity].
  - split; [exact H1|]. split; [exact H2|exact H3].
Defined.

(* ===================================================================== *)
(** ** Errors at the first statement                                      *)
(* ===================================================================== *)

Section Primeiro_comando.
Context `{Bcrypt}.

(** X11. When the first statement of a request meets a storage error,
    the handler lets that error escape as it is and the committed store is
    unchanged. Only [cadastrar], whose [finally] clause covers its first
    statement, has released its connection then; [login], [obter_perfil],
    [atualizar_perfil], [listar_habilidades], [salvar_habilidades] and
    [excluir_perfil] (whose [try] starts after its [SELECT]) leave the
    connection they opened open. *)
Theorem falha_no_primeiro_comando (p : pedido) (w : world)
    (m : string) (resto : list (option string)) :
  faults w = Some m :: resto ->
  comeca_no_banco p = true ->
  let w' := snd (atende p w) in
  fst (atende p w) = Raise (OperationalError m) /\
  disk w' = disk w /\
  if fecha_no_finally p then conns w' = conns w
  else size (conns w') = S (size (conns w)).
Proof.
  intros Hf Hp. cbn zeta.
  destruct p as [|i|c|i|i d|i|i nomes|i]; cbn [atende fecha_no_finally];
    cbn [comeca_no_banco] in Hp; try discriminate Hp;
    rewrite ?cadastrar_geral, ?login_geral, ?obter_perfil_geral,
      ?atualizar_perfil_geral, ?listar_habilidades_geral, ?salvar_habilidades_geral,
      ?excluir_perfil_geral; cbn zeta.
  all: try (destruct (presentes _); [discriminate Hp|]).
  all: rewrite ?hashpw_gensalt by done.
  all: rewrite ?Hp, Hf; cbn [proxima fst snd];
    rewrite ?conns_sess, ?abre_sem_fechar; done.
Qed.

(** X18. An id that does not fit a signed 64-bit integer. On every route
    with an id in its path (for the profile update, with at least one field
    present) the first statement cannot bind such an id: the handler raises
    [OverflowError], no statement reaches the store, the committed store is
    unchanged, and, no handler having a [finally] that covers its first
    statement on these routes, the connection is left open, one more than
    before. *)
Theorem id_fora_de_int64 (p : pedido) (i : Z) (w : world) :
  id_da_rota p = Some i ->
  cabe_em_int64 i = false ->
  (forall j, p ≠ PUT_perfil j sem_campos) ->
  let w' := snd (atende p w) in
  fst (atende p w) = Raise (OverflowError msg_overflow) /\
  trace w' = trace w /\ disk w' = disk w /\ faults w' = faults w /\
  size (conns w') = S (size (conns w)).
Proof.
  intros Hp Hi Hd. cbn zeta.
  destruct p as [|x|c|j|j d|j|j nomes|j]; cbn [id_da_rota] in Hp; try discriminate Hp;
    injection Hp as ->; cbn [atende];
    rewrite ?obter_perfil_geral, ?atualizar_perfil_geral, ?listar_habilidades_geral,
      ?salvar_habilidades_geral, ?excluir_perfil_geral; cbn zeta.
  all: try (destruct (presentes d) eqn:Hpres;
            [destruct (Hd i); f_equal; apply sem_campos_unico; intros c;
             destruct (campo c d) as [v|] eqn:Hc; [|done];
             apply presentes_elem in Hc; rewrite Hpres in Hc;
             by apply elem_of_nil in Hc|]).
  all: rewrite Hi; cbn [fst snd];
    rewrite trace_sess, disk_sess, faults_sess, conns_sess, abre_sem_fechar, app_nil_r;
    done.
Qed.

End Primeiro_comando.

Lemma falha_no_primeiro_comando_witness :
  let w := mk_world (disk mundo_ab) ∅ [Some "disk I/O error"] [] 2 in
  fst (@atende bcrypt_teste (GET_perfil 1) w) = Raise (OperationalError "disk I/O error") /\
  size (conns (snd (@atende bcrypt_teste (GET_perfil 1) w))) = 1%nat /\
  conns (snd (@atende bcrypt_teste (POST_cadastro idealizador_caio) w)) = conns w.
Proof.
  intros w.
  destruct (@falha_no_primeiro_comando bcrypt_teste (GET_perfil 1) w
              "disk I/O error" [] eq_refl eq_refl) as (H1 & _ & H3).
  destruct (@falha_no_primeiro_comando bcrypt_teste (POST_cadastro idealizador_caio) w
              "disk I/O error" [] eq_refl eq_refl) as (_ & _ & H4).
  split; [exact H1|]. split; [exact H3|exact H4].
Defined.

Lemma id_fora_de_int64_witness :
  fst (@atende bcrypt_teste (DELETE_perfil id_grande) mundo_ab)
    = Raise (OverflowError msg_overflow) /\
  size (conns (snd (@atende bcrypt_teste (DELETE_perfil id_grande) mundo_ab))) = 1%nat.
Proof.
  destruct (@id_fora_de_int64 bcrypt_teste (DELETE_perfil id_grande) id_grande mundo_ab
              eq_refl eq_refl) as (H1 & _ & _ & _ & H2).
  - intros j. discriminate.
  - split; [exact H1|exact H2].
Defined.

(* ===================================================================== *)
(** ** How updates, skill replacement and deletion show in later reads    *)
(* ===================================================================== *)
Lemma corpo_projeta r habs : corpo_perfil (projeta r) habs = perfil_de r habs.
Proof.
  unfold corpo_perfil, projeta, perfil_de.
  cbn [res0 res1 res2 res3 res4 res5 res6 res7 res8 res9].
  by rewrite !or_vazio_default.
Qed.

Lemma banco_eta b : mk_banco (idealizadores b) (habilidades b) = b.
Proof. by destruct b. Qed.

Lemma viola_unique_sem_linha i l :
  (forall r, r ∈ l -> Linha.id r ≠ i) -> viola_unique i l = false.
Proof.
  intros Hl. destruct (viola_unique i l) eqn:Hv; [exfalso|done].
  unfold viola_unique in Hv. apply existsb_exists in Hv as (r & Hr & Hv).
  apply andb_prop in Hv as [Hi _]. apply bool_decide_eq_true in Hi.
  apply list_elem_of_In in Hr. by apply (Hl r).
Qed.

Lemma sql_update_sem_linha campos valores i b :
  length campos = length valores ->
  (forall r, r ∈ idealizadores b -> Linha.id r ≠ i) ->
  sql_update_idealizadores campos valores i b = inr b.
Proof.
  intros Hlen Hl. unfold sql_update_idealizadores.
  rewrite bool_decide_eq_true_2 by done.
  rewrite (atualiza_fora _ _ _ Hl), (viola_unique_sem_linha _ _ Hl), andb_false_r.
  by rewrite banco_eta.
Qed.

(** X12. Profile update makes no existence check: for an id that fits a
    signed 64-bit integer and that no user row has, an input with at least
    one present field is answered with the confirmation message, never with
    404, the [UPDATE] and the [COMMIT] reach the store, and the committed
    store is exactly as before. *)
Theorem atualizar_perfil_sem_linha (i : Z) (d : AtualizacaoPerfil.t) (w : world) :
  cabe_em_int64 i = true ->
  faults w = [] ->
  (exists c v, campo c d = Some v) ->
  (forall r, r ∈ idealizadores (disk w) -> Linha.id r ≠ i) ->
  let w' := snd (atualizar_perfil i d w) in
  fst (atualizar_perfil i d w) =
    Return [("mensagem", VStr "Perfil atualizado com sucesso!")] /\
  disk w' = disk w /\
  trace w' =
    (trace w ++ [UPDATE_idealizadores (map fst (presentes d)) (map snd (presentes d)) i;
                 COMMIT])%list /\
  conns w' = conns w.
Proof.
  intros Hi Hf Hp Hno. cbn zeta. rewrite atualizar_perfil_geral. cbn zeta.
  destruct (presentes d) as [|cv p] eqn:Hpres; [by destruct (presentes_nao_vazio _ Hp)|].
  rewrite <- Hpres. clear Hpres cv p. rewrite Hi, Hf. cbn [proxima tail].
  rewrite sql_update_sem_linha by (by rewrite ?length_map). done.
Qed.

Lemma atualizar_perfil_sem_linha_witness :
  fst (atualizar_perfil 9 (so_email "a@x.com") mundo_ab) =
    Return [("mensagem", VStr "Perfil atualizado com sucesso!")] /\
  disk (snd (atualizar_perfil 9 (so_email "a@x.com") mundo_ab)) = disk mundo_ab.
Proof.
  destruct (atualizar_perfil_sem_linha 9 (so_email "a@x.com") mundo_ab eq_refl eq_refl)
    as (H1 & H2 & _).
  - by exists c_email, "a@x.com".
  - apply em_mundo_ab; discriminate.
  - split; [exact H1|exact H2].
Defined.
Lemma filter_atualizadas i d (l : list Linha.t) :
  filter (fun r => Linha.id r = i) (linhas_atualizadas i d l) =
  map (aplica (presentes d)) (filter (fun r => Linha.id r = i) l).
Proof.
  unfold linhas_atualizadas. induction l as [|r l IH]; [done|]. cbn [map].
  case_bool_decide as Hi.
  - rewrite !filter_cons_True by (by rewrite ?aplica_id). cbn [map]. by rewrite IH.
  - rewrite !filter_cons_False by done. exact IH.
Qed.

Lemma atualizar_perfil_feito i d w :
  cabe_em_int64 i = true ->
  faults w = [] ->
  (exists c v, campo c d = Some v) ->
  (forall e, AtualizacaoPerfil.email d = Some e ->
     forall r, r ∈ idealizadores (disk w) -> Linha.id r ≠ i -> Linha.email r ≠ Some e) ->
  atualizar_perfil i d w =
  (Return [("mensagem", VStr "Perfil atualizado com sucesso!")],
   fim (set_disk (mk_banco (linhas_atualizadas i d (idealizadores (disk w)))
                           (habilidades (disk w))) w)
       []
       [UPDATE_idealizadores (map fst (presentes d)) (map snd (presentes d)) i; COMMIT]).
Proof.
  intros Hi Hf Hp Hlivre. rewrite atualizar_perfil_geral. cbn zeta.
  destruct (presentes d) as [|cv p] eqn:Hpres; [by destruct (presentes_nao_vazio _ Hp)|].
  rewrite <- Hpres. clear Hpres cv p. rewrite Hi, Hf. cbn [proxima tail].
  by rewrite (sql_update_sem_conflito _ _ _ Hlivre).
Qed.

(** X13. Profile update followed by a profile read. When the update of
    id [i] succeeds (at least one field present; its email, if present, not
    the email of a row with another id) and a user row has id [i], which
    fits a signed 64-bit integer as every rowid of SQLite does, reading the
    profile of [i] afterwards answers, for a row [r] of that id, each
    present field with the value of the input and each absent field with
    the value [r] had before; id and skills are as before. *)
Theorem atualizar_depois_obter_perfil (i : Z) (d : AtualizacaoPerfil.t) (w : world) :
  cabe_em_int64 i = true ->
  faults w = [] ->
  (exists c v, campo c d = Some v) ->
  (forall e, AtualizacaoPerfil.email d = Some e ->
     forall r, r ∈ idealizadores (disk w) -> Linha.id r ≠ i -> Linha.email r ≠ Some e) ->
  (exists r, r ∈ idealizadores (disk w) /\ Linha.id r = i) ->
  let w' := snd (atualizar_perfil i d w) in
  exists r r',
    r ∈ idealizadores (disk w) /\ Linha.id r = i /\
    so_presentes d r r' /\
    fst (obter_perfil i w') =
    Return (perfil_de r'
              (map Habilidade.nome
                 (filter (fun h => Habilidade.idealizador_id h = i)
                         (habilidades (disk w))))).
Proof.
  intros Hi Hf Hp Hlivre Hex. cbn zeta.
  rewrite (atualizar_perfil_feito _ _ _ Hi Hf Hp Hlivre). cbn [snd].
  rewrite obter_perfil_fst, faults_fim, disk_fim. cbn [disk set_disk].
  unfold le_perfil, sql_select_perfil. rewrite Hi. cbn [proxima tail idealizadores].
  rewrite filter_atualizadas.
  destruct (filter_primeiro (fun r => Linha.id r = i) _ Hex) as (r & l' & Hin & Hri & ->).
  exists r, (aplica (presentes d) r). cbn [map].
  repeat split; try done; try apply aplica_so_presentes.
  by rewrite corpo_projeta.
Qed.

Lemma atualizar_depois_obter_perfil_witness :
  exists r r',
    r ∈ idealizadores (disk mundo_ab) /\ Linha.id r = 2 /\
    so_presentes (so_cidade "X") r r' /\
    fst (obter_perfil 2 (snd (atualizar_perfil 2 (so_cidade "X") mundo_ab))) =
    Return (perfil_de r'
              (map Habilidade.nome
                 (filter (fun h => Habilidade.idealizador_id h = 2)
                         (habilidades (disk mundo_ab))))).
Proof.
  apply (atualizar_depois_obter_perfil 2 (so_cidade "X") mundo_ab
           eq_refl eq_refl).
  - by exists c_cidade, "X".
  - intros e He. discriminate He.
  - exists linha_bia. split; [apply bia_em_mundo_ab|reflexivity].
Defined.
Lemma filter_dono_outro i j (novas : list Habilidade.t) nomes :
  j ≠ i -> map dono_nome novas = map (pair i) nomes ->
  filter (fun h => Habilidade.idealizador_id h = j) novas = [].
Proof.
  intros Hj Hm. apply filter_vazio. intros h Hh Hd.
  assert (Hin : dono_nome h ∈ map dono_nome novas) by (by apply list_elem_of_fmap_2).
  rewrite Hm in Hin. apply list_elem_of_fmap in Hin as (n & Heq & _).
  unfold dono_nome in Heq. injection Heq as Hi _. congruence.
Qed.

Lemma select_insere_todas_outro i j nomes b :
  j ≠ i -> sql_select_habilidades j (insere_todas i nomes b) = sql_select_habilidades j b.
Proof.
  intros Hj. destruct (insere_todas_habilidades i nomes b) as (novas & Hh & Hn).
  unfold sql_select_habilidades. rewrite Hh, filter_app.
  by rewrite (filter_dono_outro i j novas nomes Hj Hn), app_nil_r.
Qed.

Lemma select_delete_habilidades_outro i j b :
  j ≠ i -> sql_select_habilidades j (sql_delete_habilidades i b) = sql_select_habilidades j b.
Proof.
  intros Hj. unfold sql_select_habilidades, sql_delete_habilidades. cbn [habilidades].
  f_equal. induction (habilidades b) as [|h l IH]; [done|].
  destruct (decide (Habilidade.idealizador_id h = i)) as [Hi|Hi].
  - rewrite (filter_cons_False (fun h => Habilidade.idealizador_id h ≠ i)) by (by intros ?).
    rewrite (filter_cons_False (fun h => Habilidade.idealizador_id h = j)) by congruence.
    exact IH.
  - rewrite (filter_cons_True (fun h => Habilidade.idealizador_id h ≠ i)) by done.
    destruct (decide (Habilidade.idealizador_id h = j)) as [Hjh|Hjh].
    + rewrite !(filter_cons_True (fun h => Habilidade.idealizador_id h = j)) by done.
      by rewrite IH.
    + rewrite !(filter_cons_False (fun h => Habilidade.idealizador_id h = j)) by done.
      exact IH.
Qed.

Lemma select_perfil_delete_outro i j b :
  j ≠ i -> sql_select_perfil j (sql_delete_idealizador i b) = sql_select_perfil j b.
Proof.
  intros Hj. unfold sql_select_perfil, sql_delete_idealizador. cbn [idealizadores].
  induction (idealizadores b) as [|r l IH]; [done|].
  destruct (decide (Linha.id r = i)) as [Hi|Hi].
  - rewrite (filter_cons_False (fun r => Linha.id r ≠ i)) by (by intros ?).
    rewrite (filter_cons_False (fun r => Linha.id r = j)) by congruence.
    exact IH.
  - rewrite (filter_cons_True (fun r => Linha.id r ≠ i)) by done.
    destruct (decide (Linha.id r = j)) as [Hjr|Hjr].
    + by rewrite !(filter_cons_True (fun r => Linha.id r = j)) by done.
    + rewrite !(filter_cons_False (fun r => Linha.id r = j)) by done. exact IH.
Qed.

(** X14. How a skill replace shows in later reads. After
    [salvar_habilidades] for id [i] with the list [nomes], the profile and
    the skill listing of every other id answer exactly as before; and when
    a user row has id [i], which fits a signed 64-bit integer as every
    rowid of SQLite does, the profile of [i] answers the columns of a row
    of that id, unchanged, with [nomes] as its skills. *)
Theorem salvar_habilidades_e_leituras (i : Z) (nomes : list string) (w : world) :
  faults w = [] ->
  let w' := snd (salvar_habilidades i nomes w) in
  (forall j, j ≠ i ->
     fst (obter_perfil j w') = fst (obter_perfil j w) /\
     fst (listar_habilidades j w') = fst (listar_habilidades j w)) /\
  (cabe_em_int64 i = true ->
   (exists r, r ∈ idealizadores (disk w) /\ Linha.id r = i) ->
   exists r, r ∈ idealizadores (disk w) /\ Linha.id r = i /\
     fst (obter_perfil i w') = Return (perfil_de r nomes)).
Proof.
  intros Hf. cbn zeta. rewrite salvar_habilidades_geral. cbn zeta.
  destruct (cabe_em_int64 i) eqn:Hi.
  - rewrite Hf. cbn [proxima tail].
    rewrite insere_sem_faltas. cbn [proxima tail fst snd]. split.
    + intros j Hj.
      rewrite !obter_perfil_fst, !listar_habilidades_fst, faults_fim, disk_fim, Hf.
      cbn [disk set_disk]. unfold le_perfil, le_habilidades. cbn [proxima tail].
      rewrite (select_insere_todas_outro i j) by done.
      rewrite (select_delete_habilidades_outro i j) by done.
      unfold sql_select_perfil. by rewrite insere_todas_idealizadores.
    + intros _ Hex. rewrite obter_perfil_fst, faults_fim, disk_fim. cbn [disk set_disk].
      unfold le_perfil, sql_select_perfil. rewrite Hi. cbn [proxima tail].
      rewrite insere_todas_idealizadores. cbn [sql_delete_habilidades idealizadores].
      destruct (filter_primeiro (fun r => Linha.id r = i) _ Hex)
        as (r & l' & Hin & Hri & ->).
      exists r. split; [done|]. split; [done|].
      by rewrite corpo_projeta, select_insere_todas, select_delete_habilidades.
  - cbn [snd]. split.
    + intros j _.
      by rewrite !obter_perfil_fst, !listar_habilidades_fst, faults_sess, disk_sess.
    + intros Hi2. discriminate Hi2.
Qed.

Lemma salvar_habilidades_e_leituras_witness :
  fst (listar_habilidades 1 (snd (salvar_habilidades 2 ["x"] mundo_ab))) =
    fst (listar_habilidades 1 mundo_ab) /\
  exists r, r ∈ idealizadores (disk mundo_ab) /\ Linha.id r = 2 /\
    fst (obter_perfil 2 (snd (salvar_habilidades 2 ["x"] mundo_ab))) =
    Return (perfil_de r ["x"]).
Proof.
  destruct (salvar_habilidades_e_leituras 2 ["x"] mundo_ab eq_refl) as [Houtros Hmesmo].
  split.
  - apply (Houtros 1). discriminate.
  - apply Hmesmo; [reflexivity|].
    exists linha_bia. split; [apply bia_em_mundo_ab|reflexivity].
Defined.

Lemma excluir_perfil_feito i w :
  cabe_em_int64 i = true ->
  faults w = [] ->
  (exists r, r ∈ idealizadores (disk w) /\ Linha.id r = i) ->
  excluir_perfil i w =
  (Return [("mensagem", VStr "Perfil e habilidades excluídos com sucesso!")],
   fim (set_disk (sql_delete_idealizador i (sql_delete_habilidades i (disk w))) w)
       [] [SELECT_id i; DELETE_habilidades i; DELETE_idealizador i; COMMIT]).
Proof.
  intros Hi Hf Hex. rewrite excluir_perfil_geral. cbn zeta.
  by rewrite Hi, Hf, (sql_select_id_some _ _ Hex).
Qed.

(** X15. What a profile delete leaves alone. After a successful
    [excluir_perfil] of id [i] (a user row has the id, which fits a signed
    64-bit integer as every rowid of SQLite does), the profile and the
    skill listing of every other id answer exactly as before, and deleting
    [i] once more answers 404. *)
Theorem excluir_perfil_e_leituras (i : Z) (w : world) :
  cabe_em_int64 i = true ->
  faults w = [] ->
  (exists r, r ∈ idealizadores (disk w) /\ Linha.id r = i) ->
  let w' := snd (excluir_perfil i w) in
  (forall j, j ≠ i ->
     fst (obter_perfil j w') = fst (obter_perfil j w) /\
     fst (listar_habilidades j w') = fst (listar_habilidades j w)) /\
  fst (excluir_perfil i w') = Raise (HTTPException 404 "Usuário não encontrado.").
Proof.
  intros Hi Hf Hex. cbn zeta.
  rewrite (excluir_perfil_feito i w Hi Hf Hex). cbn [snd]. split.
  - intros j Hj.
    rewrite !obter_perfil_fst, !listar_habilidades_fst, faults_fim, disk_fim, Hf.
    cbn [disk set_disk]. unfold le_perfil, le_habilidades. cbn [proxima tail].
    rewrite (select_perfil_delete_outro i j) by done.
    replace (sql_select_perfil j (sql_delete_habilidades i (disk w)))
      with (sql_select_perfil j (disk w)) by reflexivity.
    replace (sql_select_habilidades j
               (sql_delete_idealizador i (sql_delete_habilidades i (disk w))))
      with (sql_select_habilidades j (sql_delete_habilidades i (disk w)))
      by reflexivity.
    by rewrite (select_delete_habilidades_outro i j).
  - rewrite excluir_perfil_geral, Hi, faults_fim, disk_fim.
    cbn [proxima tail disk set_disk].
    rewrite sql_select_id_none; [reflexivity|].
    intros r Hr. cbn [sql_delete_idealizador idealizadores] in Hr.
    by apply list_elem_of_filter in Hr as [Hne _].
Qed.

Lemma excluir_perfil_e_leituras_witness :
  fst (obter_perfil 2 (snd (excluir_perfil 1 mundo_ab))) = fst (obter_perfil 2 mundo_ab) /\
  fst (excluir_perfil 1 (snd (excluir_perfil 1 mundo_ab))) =
    Raise (HTTPException 404 "Usuário não encontrado.").
Proof.
  destruct (excluir_perfil_e_leituras 1 mundo_ab eq_refl eq_refl)
    as [Houtros Hde_novo].
  - exists linha_ana. split; [apply ana_em_mundo_ab|reflexivity].
  - split; [apply (Houtros 2); discriminate|exact Hde_novo].
Defined.

(* ===================================================================== *)
(** ** Who can log in after a delete or an update                         *)
(* ===================================================================== *)
Lemma filter_email_delete_outro i e (l : list Linha.t) :
  (forall r, r ∈ l -> Linha.email r = Some e -> Linha.id r ≠ i) ->
  filter (fun r => Linha.email r = Some e) (filter (fun r => Linha.id r ≠ i) l) =
  filter (fun r => Linha.email r = Some e) l.
Proof.
  induction l as [|r l IH]; intros Hl; [done|].
  assert (Hl' : forall r', r' ∈ l -> Linha.email r' = Some e -> Linha.id r' ≠ i)
    by (intros r' Hr'; apply Hl; by right).
  destruct (decide (Linha.email r = Some e)) as [He|He].
  - rewrite (filter_cons_True (fun r => Linha.id r ≠ i)) by (apply Hl; [left|done]).
    rewrite !(filter_cons_True (fun r => Linha.email r = Some e)) by done.
    by rewrite IH.
  - rewrite (filter_cons_False (fun r => Linha.email r = Some e) r l) by done.
    destruct (decide (Linha.id r = i)) as [Hi|Hi].
    + rewrite (filter_cons_False (fun r => Linha.id r ≠ i)) by (by intros ?). by apply IH.
    + rewrite (filter_cons_True (fun r => Linha.id r ≠ i)) by done.
      rewrite (filter_cons_False (fun r => Linha.email r = Some e)) by done. by apply IH.
Qed.

Lemma filter_email_atualizadas i d e (l : list Linha.t) :
  AtualizacaoPerfil.email d = None ->
  filter (fun r => Linha.email r = Some e) (linhas_atualizadas i d l) =
  map (fun r => if bool_decide (Linha.id r = i) then aplica (presentes d) r else r)
      (filter (fun r => Linha.email r = Some e) l).
Proof.
  intros Hd.
  assert (Hmail : forall r, Linha.email (aplica (presentes d) r) = Linha.email r).
  { intros r. destruct (aplica_so_presentes d r) as (_ & _ & Hget).
    specialize (Hget c_email). cbn [Linha.get campo] in Hget. by rewrite Hd in Hget. }
  unfold linhas_atualizadas. induction l as [|r l IH]; [done|]. cbn [map].
  destruct (decide (Linha.email r = Some e)) as [He|He].
  - rewrite (filter_cons_True _ r l) by done. cbn [map]. rewrite <- IH.
    apply filter_cons_True. case_bool_decide; [by rewrite Hmail|done].
  - rewrite (filter_cons_False _ r l) by done. rewrite <- IH.
    apply filter_cons_False. case_bool_decide; [by rewrite Hmail|done].
Qed.

Section Acesso.
Context `{Bcrypt}.

(** X16. Login after a profile delete. After a successful
    [excluir_perfil] of id [i] (a user row has the id, which fits a signed
    64-bit integer as every rowid of SQLite does), a login with an email
    that only rows of id [i] had answers 404, whatever the password; a
    login with an email that no row of id [i] had answers exactly as before
    the delete. *)
Theorem excluir_depois_login (i : Z) (c : Login.t) (w : world) :
  cabe_em_int64 i = true ->
  faults w = [] ->
  (exists r, r ∈ idealizadores (disk w) /\ Linha.id r = i) ->
  let w' := snd (excluir_perfil i w) in
  ((forall r, r ∈ idealizadores (disk w) ->
      Linha.email r = Some (Login.email c) -> Linha.id r = i) ->
   fst (login c w') = Raise (HTTPException 404 "Usuário não encontrado")) /\
  ((forall r, r ∈ idealizadores (disk w) ->
      Linha.email r = Some (Login.email c) -> Linha.id r ≠ i) ->
   fst (login c w') = fst (login c w)).
Proof.
  intros Hi Hf Hex. cbn zeta.
  rewrite (excluir_perfil_feito i w Hi Hf Hex). cbn [snd].
  rewrite !login_geral, faults_fim, disk_fim, Hf. cbn [proxima tail fst disk set_disk].
  unfold sql_select_login. cbn [sql_delete_idealizador sql_delete_habilidades idealizadores].
  split.
  - intros Hso. rewrite filter_vazio; [reflexivity|].
    intros r Hr He. apply list_elem_of_filter in Hr as [Hne Hr]. by apply Hne, Hso.
  - intros Hfora. by rewrite filter_email_delete_outro.
Qed.

(** X17. Login after a profile update. A profile update that does not
    assign [email] changes neither who can log in nor with which password:
    for all credentials, a login that was refused before the update is
    refused with the same error after it, and a login that succeeded
    succeeds with the same id (the greeting may carry a new name). *)
Theorem atualizar_depois_login (i : Z) (d : AtualizacaoPerfil.t) (c : Login.t)
    (w : world) :
  faults w = [] ->
  (exists c v, campo c d = Some v) ->
  AtualizacaoPerfil.email d = None ->
  let w' := snd (atualizar_perfil i d w) in
  (forall e, fst (login c w) = Raise e -> fst (login c w') = Raise e) /\
  (forall msg k,
     fst (login c w) = Return [("mensagem", VStr msg); ("id", VInt k)] ->
     exists msg', fst (login c w') = Return [("mensagem", VStr msg'); ("id", VInt k)]).
Proof.
  intros Hf Hp Hd. cbn zeta.
  destruct (cabe_em_int64 i) eqn:Hi.
  - rewrite (atualizar_perfil_feito _ _ _ Hi Hf Hp) by (intros e He; congruence).
    cbn [snd].
    rewrite !login_geral, faults_fim, disk_fim, Hf. cbn [proxima tail fst disk set_disk].
    unfold sql_select_login. cbn [idealizadores].
    rewrite (filter_email_atualizadas _ _ _ _ Hd).
    destruct (filter _ (idealizadores (disk w))) as [|r l]; cbn [map]; [by split|].
    assert (Hid : Linha.id (if bool_decide (Linha.id r = i)
                            then aplica (presentes d) r else r) = Linha.id r)
      by (case_bool_decide; [apply aplica_id|done]).
    assert (Hs : Linha.senha (if bool_decide (Linha.id r = i)
                              then aplica (presentes d) r else r) = Linha.senha r)
      by (case_bool_decide; [apply aplica_senha|done]).
    rewrite Hid, Hs. destruct (checkpw _ _) as [e0|[|]]; split; try done.
    intros msg k [= _ <-]. eauto.
  - rewrite atualizar_perfil_geral. cbn zeta.
    destruct (presentes d) as [|cv p] eqn:Hpres; [by destruct (presentes_nao_vazio _ Hp)|].
    rewrite Hi. cbn [snd].
    rewrite !login_geral, faults_sess, disk_sess, Hf. cbn [proxima fst].
    split; [done|]. eauto.
Qed.

End Acesso.

Lemma excluir_depois_login_witness :
  fst (@login bcrypt_teste (Login.mk "a@x.com" "pw1") (snd (excluir_perfil 1 mundo_ab))) =
    Raise (HTTPException 404 "Usuário não encontrado") /\
  fst (@login bcrypt_teste (Login.mk "b@x.com" "pw2") (snd (excluir_perfil 1 mundo_ab))) =
    fst (@login bcrypt_teste (Login.mk "b@x.com" "pw2") mundo_ab).
Proof.
  assert (Hex : exists r, r ∈ idealizadores (disk mundo_ab) /\ Linha.id r = 1)
    by (exists linha_ana; split; [apply ana_em_mundo_ab|reflexivity]).
  split.
  - apply (@excluir_depois_login bcrypt_teste 1 (Login.mk "a@x.com" "pw1")
             mundo_ab eq_refl eq_refl Hex).
    apply (em_mundo_ab (fun r => Linha.email r = Some "a@x.com" -> Linha.id r = 1));
      [done|discriminate].
  - apply (@excluir_depois_login bcrypt_teste 1 (Login.mk "b@x.com" "pw2")
             mundo_ab eq_refl eq_refl Hex).
    apply (em_mundo_ab (fun r => Linha.email r = Some "b@x.com" -> Linha.id r ≠ 1));
      [discriminate|done].
Defined.

Lemma atualizar_depois_login_witness :
  exists msg',
    fst (@login bcrypt_teste (Login.mk "b@x.com" "pw2")
           (snd (atualizar_perfil 2 (so_cidade "X") mundo_ab))) =
    Return [("mensagem", VStr msg'); ("id", VInt 2)].
Proof.
  destruct (@atualizar_depois_login bcrypt_teste 2 (so_cidade "X")
              (Login.mk "b@x.com" "pw2") mundo_ab eq_refl) as [_ Hok].
  - by exists c_cidade, "X".
  - reflexivity.
  - apply (Hok "Bem-vindo Bia!" 2). reflexivity.
Defined.
